(** * GalaxEye access-window parser and metrics engine

    A shallow embedding of the parsing and metrics code of the repository:
    - [src/parsers/parse_stk_access.py], [src/parsers/parse_ship_eez.py]
    - [src/analytics/compute_metrics.py], [src/analytics/compute_eez_metrics.py]
    - [src/pipeline.py] ([compute_fusion_benefits])

    Modelling conventions.
    - A Python [float] is an exact rational ([Q]); [float('inf')] is the
      extra value [PInf] of [xnum].  Rounding error of binary floating point
      is not modelled, and equality of numbers is [Qeq] ([==]).
    - A Python [int] is a [Z].
    - A [str] is a [string] of 8-bit characters; the whitespace class of
      [str.strip()] is the one Python uses on that range.
    - A [dict] with a fixed set of keys is a record; a key that only some
      return paths set is an [option] field.
    - A file is the list of rows that [csv.reader] yields for it. *)

From Stdlib Require Import QArith Qminmax Qround Qabs Lqa ZArith Lia.
From Stdlib Require Import Ascii String List Permutation Sorted.
From Stdlib Require Import DecimalString DecimalPos DecimalZ.
From stdpp Require Import base option list gmap strings.

Import ListNotations.
Local Open Scope Q_scope.

(** ** Numbers *)

(** A [float] that may be [float('inf')]. *)
Inductive xnum : Type :=
| Fin (q : Q)
| PInf.

(** Equality of [xnum] up to [Qeq]. *)
Definition xeq (a b : xnum) : Prop :=
  match a, b with
  | Fin x, Fin y => x == y
  | PInf, PInf => True
  | _, _ => False
  end.

Definition Qltb (x y : Q) : bool := negb (Qle_bool y x).

(** [min(a, b)] and [max(a, b)] of Python: the first argument wins a tie. *)
Definition py_min2 (a b : Q) : Q := if Qltb b a then b else a.
Definition py_max2 (a b : Q) : Q := if Qltb a b then b else a.

(** [min(xs, key=key)] on a non-empty sequence [x :: xs]: the first element
    whose key is minimal. *)
Fixpoint min_by {A} (key : A -> Q) (x : A) (xs : list A) : A :=
  match xs with
  | [] => x
  | y :: ys => min_by key (if Qltb (key y) (key x) then y else x) ys
  end.

Fixpoint max_by {A} (key : A -> Q) (x : A) (xs : list A) : A :=
  match xs with
  | [] => x
  | y :: ys => max_by key (if Qltb (key x) (key y) then y else x) ys
  end.

(** [sum(xs)]. *)
Definition Qsum (xs : list Q) : Q := fold_left Qplus xs 0.

(** [len(xs)] as a number. *)
Definition Qlen {A} (xs : list A) : Q := inject_Z (Z.of_nat (length xs)).

(** [np.mean(xs)] on a non-empty list. *)
Definition np_mean (xs : list Q) : Q := Qsum xs / Qlen xs.

(** [sorted(xs, key=key)]: a stable sort, here by insertion. *)
Fixpoint insert_by {A} (key : A -> Q) (x : A) (xs : list A) : list A :=
  match xs with
  | [] => [x]
  | y :: ys => if Qltb (key y) (key x) then y :: insert_by key x ys else x :: y :: ys
  end.

Fixpoint sorted_by {A} (key : A -> Q) (xs : list A) : list A :=
  match xs with
  | [] => []
  | x :: xs' => insert_by key x (sorted_by key xs')
  end.

(** [np.median(xs)] on a non-empty list: the middle element of the sorted
    values, or the mean of the two middle ones. *)
Definition np_median (xs : list Q) : Q :=
  let s := sorted_by (fun x => x) xs in
  let n := length s in
  if Nat.even n
  then (nth (Nat.div n 2 - 1) s 0 + nth (Nat.div n 2) s 0) / 2
  else nth (Nat.div n 2) s 0.

(** ** The event record

    The dictionary that [parse_stk_csv] appends for each pass, and that the
    metrics functions read back from the interchange file. *)
Record pass : Type := mkPass {
  satellite_id : Z;
  pass_num : Z;
  start_time_str : string;
  stop_time_str : string;
  start_time : string;
  stop_time : string;
  duration_sec : Q;
  unix_start : Q;
  unix_stop : Q
}.

(** [datetime(2026, 1, 1, 0, 0, 0, tzinfo=timezone.utc).timestamp()]. *)
Definition SCENARIO_START : Q := 1767225600.

(** The dictionary returned by [compute_revisit_times].  The key ['count']
    is absent on some return paths of compute_metrics.py. *)
Record revisit : Type := mkRevisit {
  rv_min : xnum;
  rv_mean : xnum;
  rv_max : xnum;
  rv_median : xnum;
  rv_count : option Z
}.

(** The dictionary returned by [compute_fusion_windows]. *)
Record fusion_stats : Type := mkFusionStats {
  fw_count : Z;
  fw_total_duration : Q;
  fw_mean_duration : Q;
  fw_max_duration : Q
}.

(** The dictionary returned by [compute_delivery_latency]. *)
Record delivery : Type := mkDelivery {
  dl_min : xnum;
  dl_mean : xnum;
  dl_max : xnum;
  dl_count : option Z
}.

(** [min(xs)] and [max(xs)] of a list that the caller knows is non-empty. *)
Definition list_min (xs : list Q) : Q :=
  match xs with
  | [] => 0
  | x :: xs' => min_by (fun v => v) x xs'
  end.

Definition list_max (xs : list Q) : Q :=
  match xs with
  | [] => 0
  | x :: xs' => max_by (fun v => v) x xs'
  end.

(** The loop over [range(len(sorted_passes) - 1)]: the positive gaps between
    the stop of one pass and the start of the next, each passed through
    [conv] before it is appended. *)
Fixpoint adjacent_gaps (conv : Q -> Q) (sorted_passes : list pass) : list Q :=
  match sorted_passes with
  | [] => []
  | p :: rest =>
      match rest with
      | [] => []
      | q :: _ =>
          let gap := unix_start q - unix_stop p in
          if Qltb 0 gap
          then conv gap :: adjacent_gaps conv rest
          else adjacent_gaps conv rest
      end
  end.

(** ** compute_metrics.py *)
Module Metrics.

Definition compute_detection_latency (passes : list pass) : xnum :=
  match passes with
  | [] => PInf
  | p :: ps =>
      let first_pass := min_by unix_start p ps in
      Fin (unix_start first_pass - SCENARIO_START)
  end.

Definition compute_revisit_times (passes : list pass) : revisit :=
  if (length passes <? 2)%nat
  then mkRevisit PInf PInf (Fin 0) PInf None
  else
    let sorted_passes := sorted_by unix_start passes in
    let gaps := adjacent_gaps (fun gap => gap) sorted_passes in
    match gaps with
    | [] => mkRevisit (Fin 0) (Fin 0) (Fin 0) (Fin 0) None
    | _ :: _ =>
        mkRevisit (Fin (list_min gaps)) (Fin (np_mean gaps))
                  (Fin (list_max gaps)) (Fin (np_median gaps))
                  (Some (Z.of_nat (length gaps)))
    end.

(** The nested loops of [compute_fusion_windows], read for the windows
    they find: the pairs [(overlap_start, overlap_end)] that pass the test
    [overlap_start < overlap_end], in the order the loops meet them. *)
Definition fusion_windows (sar_sorted opt_sorted : list pass) : list (Q * Q) :=
  flat_map (fun sar =>
    flat_map (fun opt =>
      let overlap_start := py_max2 (unix_start sar) (unix_start opt) in
      let overlap_end := py_min2 (unix_stop sar) (unix_stop opt) in
      if Qltb overlap_start overlap_end
      then [(overlap_start, overlap_end)]
      else []) opt_sorted) sar_sorted.

(** The nested loops of [compute_fusion_windows]: the list [overlaps]. *)
Definition fusion_overlaps (sar_sorted opt_sorted : list pass) : list Q :=
  flat_map (fun sar =>
    flat_map (fun opt =>
      let overlap_start := py_max2 (unix_start sar) (unix_start opt) in
      let overlap_end := py_min2 (unix_stop sar) (unix_stop opt) in
      if Qltb overlap_start overlap_end
      then [overlap_end - overlap_start]
      else []) opt_sorted) sar_sorted.

Definition compute_fusion_windows (sar_passes optical_passes : list pass)
  : fusion_stats :=
  match sar_passes, optical_passes with
  | [], _ | _, [] => mkFusionStats 0 0 0 0
  | _, _ =>
      let sar_sorted := sorted_by unix_start sar_passes in
      let opt_sorted := sorted_by unix_start optical_passes in
      let overlaps := fusion_overlaps sar_sorted opt_sorted in
      match overlaps with
      | [] => mkFusionStats 0 0 0 0
      | _ :: _ =>
          mkFusionStats (Z.of_nat (length overlaps)) (Qsum overlaps)
                        (np_mean overlaps) (list_max overlaps)
      end
  end.

(** The loop of [compute_delivery_latency]: the list [latencies]. *)
Definition delivery_latencies (ship_sorted gs_sorted : list pass) : list Q :=
  flat_map (fun ship_pass =>
    let ship_end := unix_stop ship_pass in
    let candidates :=
      List.filter (fun gs => Qle_bool ship_end (unix_start gs)) gs_sorted in
    match candidates with
    | [] => []
    | c :: cs =>
        let nearest := min_by unix_start c cs in
        [unix_start nearest - ship_end]
    end) ship_sorted.

Definition compute_delivery_latency (ship_passes gs_passes : list pass)
  : delivery :=
  match ship_passes, gs_passes with
  | [], _ | _, [] => mkDelivery PInf PInf PInf None
  | _, _ =>
      let ship_sorted := sorted_by unix_stop ship_passes in
      let gs_sorted := sorted_by unix_start gs_passes in
      let latencies := delivery_latencies ship_sorted gs_sorted in
      match latencies with
      | [] => mkDelivery PInf PInf PInf None
      | _ :: _ =>
          mkDelivery (Fin (list_min latencies)) (Fin (np_mean latencies))
                     (Fin (list_max latencies))
                     (Some (Z.of_nat (length latencies)))
      end
  end.

End Metrics.

(** ** compute_eez_metrics.py *)
Module EezMetrics.

Definition compute_detection_latency (passes : list pass) : xnum :=
  match passes with
  | [] => PInf
  | p :: ps =>
      let first := min_by unix_start p ps in
      let latency_sec := unix_start first - SCENARIO_START in
      Fin (py_max2 0 (latency_sec / 60))
  end.

Definition compute_revisit_times (passes : list pass) : revisit :=
  if (length passes <? 2)%nat
  then mkRevisit PInf PInf (Fin 0) PInf (Some 0%Z)
  else
    let sorted_passes := sorted_by unix_start passes in
    let gaps := adjacent_gaps (fun gap => gap / 60) sorted_passes in
    match gaps with
    | [] => mkRevisit (Fin 0) (Fin 0) (Fin 0) (Fin 0) (Some 0%Z)
    | _ :: _ =>
        mkRevisit (Fin (list_min gaps)) (Fin (np_mean gaps))
                  (Fin (list_max gaps)) (Fin (np_median gaps))
                  (Some (Z.of_nat (length gaps)))
    end.

Definition compute_total_access_time (passes : list pass) : Q :=
  match passes with
  | [] => 0
  | _ :: _ =>
      let total_sec := Qsum (map duration_sec passes) in
      total_sec / 60
  end.

Definition compute_coverage_percent (passes : list pass) : Q :=
  let total_min := compute_total_access_time passes in
  let total_24h_min := 24 * 60 in
  (total_min / total_24h_min) * 100.

End EezMetrics.

(** ** Strings *)

(** The double-quote character. *)
Definition dquote : ascii := ascii_of_nat 34.

(** [str.isspace] on one character (code points below 256). *)
Definition is_space (c : ascii) : bool :=
  let n := nat_of_ascii c in
  ((9 <=? n) && (n <=? 13) || (28 <=? n) && (n <=? 32)
   || (n =? 133) || (n =? 160))%nat.

Definition is_dquote (c : ascii) : bool := Ascii.eqb c dquote.

Fixpoint lstrip_with (f : ascii -> bool) (s : string) : string :=
  match s with
  | EmptyString => EmptyString
  | String c s' => if f c then lstrip_with f s' else s
  end.

Fixpoint rstrip_with (f : ascii -> bool) (s : string) : string :=
  match s with
  | EmptyString => EmptyString
  | String c s' =>
      match rstrip_with f s' with
      | EmptyString => if f c then EmptyString else String c EmptyString
      | r => String c r
      end
  end.

(** [s.strip()], and [s.strip(q)] for [q] the double-quote character. *)
Definition py_strip (s : string) : string :=
  rstrip_with is_space (lstrip_with is_space s).

Definition strip_quotes (s : string) : string :=
  rstrip_with is_dquote (lstrip_with is_dquote s).

(** Truth value of a string: it is not empty. *)
Definition nonempty (s : string) : bool :=
  match s with
  | EmptyString => false
  | String _ _ => true
  end.

(** [s.startswith(prefixes)] for a tuple of prefixes. *)
Definition startswith_any (s : string) (prefixes : list string) : bool :=
  existsb (fun p => String.prefix p s) prefixes.

(** [sub in s]. *)
Fixpoint contains (sub s : string) : bool :=
  if String.prefix sub s then true
  else match s with
       | EmptyString => false
       | String _ s' => contains sub s'
       end.

(** [s.split(sep)] for a one-character separator. *)
Fixpoint split_on (sep : ascii) (s : string) : list string :=
  match s with
  | EmptyString => [EmptyString]
  | String c s' =>
      if Ascii.eqb c sep then EmptyString :: split_on sep s'
      else match split_on sep s' with
           | [] => [String c EmptyString]
           | w :: ws => String c w :: ws
           end
  end.

(** [str(n)] of an integer. *)
Definition str_of_Z (n : Z) : string := NilZero.string_of_int (Z.to_int n).

(** ** Library functions the parser calls

    [int], [float], [datetime.strptime] with the format
    [%d %b %Y %H:%M:%S.%f], [datetime.isoformat] and
    [datetime.timestamp] are Python's, not the repository's.  The parser is
    modelled over any implementation of them; [None] stands for the
    [ValueError] they raise. *)
Class PyBuiltins : Type := {
  int_of_str : string -> option Z;
  float_of_str : string -> option Q;
  datetime : Type;
  strptime : string -> option datetime;
  isoformat : datetime -> string;
  timestamp : datetime -> Q
}.

(** ** parse_stk_csv (parse_stk_access.py, parse_ship_eez.py) *)
Section Parser.
Context {B : PyBuiltins}.

Definition STAT_LABELS : list string :=
  ["Min Duration"; "Max Duration"; "Mean Duration"; "Total Duration";
   "Statistics"]%string.

(** The comprehension that cleans a row: the cells that are not empty
    once stripped of whitespace, each stripped of whitespace and then of
    double quotes. *)
Definition clean_row (row : list string) : list string :=
  map (fun cell => strip_quotes (py_strip cell))
      (List.filter (fun cell => nonempty (py_strip cell)) row).

(** The header test on a cleaned row. *)
Definition is_header (row : list string) : bool :=
  String.eqb (nth 0 row EmptyString) "Access"
  && (4 <=? length row)%nat
  && contains "Start Time" (nth 1 row EmptyString).

(** The [try] block: the pass of a cleaned data row, or [None] when one of
    the conversions raises. *)
Definition parse_data_row (satellite_id : Z) (row : list string)
  : option pass :=
  let first_cell := nth 0 row EmptyString in
  access_id ← int_of_str first_cell;
  let start_time := strip_quotes (nth 1 row EmptyString) in
  let stop_time := strip_quotes (nth 2 row EmptyString) in
  duration ← float_of_str (strip_quotes (nth 3 row EmptyString));
  start_dt ← strptime start_time;
  stop_dt ← strptime stop_time;
  Some (mkPass satellite_id access_id start_time stop_time
               (isoformat start_dt) (isoformat stop_dt) duration
               (timestamp start_dt) (timestamp stop_dt)).

(** One iteration of the loop over the rows, on the pair
    [(passes, satellite_id)]. *)
Definition scan_row (st : list pass * Z) (raw : list string)
  : list pass * Z :=
  let '(passes, satellite_id) := st in
  let row := clean_row raw in
  if (length row <? 4)%nat then st
  else
    let first_cell := nth 0 row EmptyString in
    if is_header row then (passes, (satellite_id + 1)%Z)
    else if startswith_any first_cell STAT_LABELS then st
    else match parse_data_row satellite_id row with
         | Some p => (passes ++ [p], satellite_id)
         | None => st
         end.

Definition scan_rows (rows : list (list string)) (st : list pass * Z)
  : list pass * Z :=
  fold_left scan_row rows st.

Definition parse_stk_csv (rows : list (list string)) : list pass :=
  fst (scan_rows rows ([], (-1)%Z)).

End Parser.

(** ** A reference implementation of the library functions

    Used to run the parser on concrete files.  It covers the text the
    simulator exports: decimal integers as [int] reads them, plain decimal
    numbers without exponent, and timestamps such as
    [1 Jan 2026 00:10:00.000]; the machine's time zone is taken to be UTC. *)
Module Ref.

Definition digit_val (c : ascii) : option Z :=
  let n := nat_of_ascii c in
  if ((48 <=? n) && (n <=? 57))%nat then Some (Z.of_nat (n - 48)) else None.

(** Digits with single underscores between them, as [int] accepts. *)
Fixpoint int_digits (s : string) (acc : Z) (after_digit : bool) : option Z :=
  match s with
  | EmptyString => if after_digit then Some acc else None
  | String c s' =>
      if Ascii.eqb c "_"
      then (if after_digit then int_digits s' acc false else None)
      else d ← digit_val c; int_digits s' (10 * acc + d)%Z true
  end.

Definition int_of_str (s : string) : option Z :=
  match py_strip s with
  | String "+" r => int_digits r 0%Z false
  | String "-" r => Z.opp <$> int_digits r 0%Z false
  | r => int_digits r 0%Z false
  end.

(** A run of plain digits; the empty run counts as zero. *)
Fixpoint digits_acc (s : string) (acc : Z) : option Z :=
  match s with
  | EmptyString => Some acc
  | String c s' => d ← digit_val c; digits_acc s' (10 * acc + d)%Z
  end.

Definition digits (s : string) : option Z :=
  if nonempty s then digits_acc s 0%Z else None.

Definition unsigned_decimal (s : string) : option Q :=
  match split_on "." s with
  | [ip] => inject_Z <$> digits ip
  | [ip; fp] =>
      if nonempty ip || nonempty fp then
        i ← digits_acc ip 0%Z;
        f ← digits_acc fp 0%Z;
        Some (inject_Z i + Qmake f (Pos.pow 10 (Pos.of_nat (String.length fp))))
      else None
  | _ => None
  end.

Definition float_of_str (s : string) : option Q :=
  match py_strip s with
  | String "+" r => unsigned_decimal r
  | String "-" r => Qopp <$> unsigned_decimal r
  | r => unsigned_decimal r
  end.

Record datetime : Type := mkDatetime {
  year : Z; month : Z; day : Z;
  hour : Z; minute : Z; second : Z; microsecond : Z
}.

Definition MONTHS : list string :=
  ["Jan"; "Feb"; "Mar"; "Apr"; "May"; "Jun";
   "Jul"; "Aug"; "Sep"; "Oct"; "Nov"; "Dec"]%string.

Fixpoint index_of (s : string) (l : list string) (i : Z) : option Z :=
  match l with
  | [] => None
  | x :: l' => if String.eqb s x then Some i else index_of s l' (i + 1)%Z
  end.

Definition is_leap (y : Z) : bool :=
  ((y mod 4 =? 0) && (negb (y mod 100 =? 0) || (y mod 400 =? 0)))%Z.

Definition days_in_month (y m : Z) : Z :=
  if (m =? 2)%Z then (if is_leap y then 29 else 28)%Z
  else if ((m =? 4) || (m =? 6) || (m =? 9) || (m =? 11))%Z then 30%Z
  else 31%Z.

(** A field of at least one and at most [n] digits. *)
Definition field (n : nat) (s : string) : option Z :=
  if (String.length s <=? n)%nat then digits s else None.

Definition strptime (s : string) : option datetime :=
  match split_on " " s with
  | [d; b; y; t] =>
      match split_on ":" t with
      | [h; mi; sf] =>
          match split_on "." sf with
          | [sec; f] =>
              dd ← field 2 d;
              mm ← index_of b MONTHS 1%Z;
              yy ← (if (String.length y =? 4)%nat then digits y else None);
              hh ← field 2 h;
              mi' ← field 2 mi;
              ss ← field 2 sec;
              ff ← field 6 f;
              let us := (ff * 10 ^ (6 - Z.of_nat (String.length f)))%Z in
              if ((1 <=? yy) && (1 <=? dd) && (dd <=? days_in_month yy mm)
                  && (hh <=? 23) && (mi' <=? 59) && (ss <=? 59))%Z
              then Some (mkDatetime yy mm dd hh mi' ss us)
              else None
          | _ => None
          end
      | _ => None
      end
  | _ => None
  end.

(** Days from 1970-01-01 to a date of the proleptic Gregorian calendar. *)
Definition days_from_civil (y m d : Z) : Z :=
  let y := (if m <=? 2 then y - 1 else y)%Z in
  let era := (y / 400)%Z in
  let yoe := (y - era * 400)%Z in
  let doy := ((153 * (m + (if 2 <? m then -3 else 9)) + 2) / 5 + d - 1)%Z in
  let doe := (yoe * 365 + yoe / 4 - yoe / 100 + doy)%Z in
  (era * 146097 + doe - 719468)%Z.

Definition timestamp (dt : datetime) : Q :=
  inject_Z (days_from_civil (year dt) (month dt) (day dt) * 86400
            + hour dt * 3600 + minute dt * 60 + second dt)
  + Qmake (microsecond dt) 1000000.

(** [n] written with at least [w] digits. *)
Definition zpad (w : nat) (n : Z) : string :=
  let s := str_of_Z n in
  String.concat EmptyString (repeat "0"%string (w - String.length s)) ++ s.

Definition isoformat (dt : datetime) : string :=
  (zpad 4 (year dt) ++ "-" ++ zpad 2 (month dt) ++ "-" ++ zpad 2 (day dt)
   ++ "T" ++ zpad 2 (hour dt) ++ ":" ++ zpad 2 (minute dt) ++ ":"
   ++ zpad 2 (second dt)
   ++ (if (microsecond dt =? 0)%Z then EmptyString
       else "." ++ zpad 6 (microsecond dt)))%string.

#[export] Instance builtins : PyBuiltins :=
  Build_PyBuiltins int_of_str float_of_str datetime strptime isoformat
                   timestamp.

End Ref.

(** ** parse_ship_eez.py: the file-name rules and [main] *)

Definition is_digit (c : ascii) : bool :=
  let n := nat_of_ascii c in ((48 <=? n) && (n <=? 57))%nat.

Definition is_alpha (c : ascii) : bool :=
  let n := nat_of_ascii c in
  ((65 <=? n) && (n <=? 90) || (97 <=? n) && (n <=? 122))%nat.

(** The classes [\w] and [[\d_]] of the two patterns. *)
Definition is_word (c : ascii) : bool :=
  is_alpha c || is_digit c || Ascii.eqb c "_".

Definition is_digit_or_underscore (c : ascii) : bool :=
  is_digit c || Ascii.eqb c "_".

(** Length of the longest prefix of [s] made of characters in [f]. *)
Fixpoint span_len (f : ascii -> bool) (s : string) : nat :=
  match s with
  | EmptyString => 0
  | String c s' => if f c then S (span_len f s') else 0
  end.

Fixpoint sdrop (n : nat) (s : string) : string :=
  match n, s with
  | O, _ => s
  | S n', String _ s' => sdrop n' s'
  | S _, EmptyString => EmptyString
  end.

Definition stake (n : nat) (s : string) : string := String.substring 0 n s.

(** [re.search(r'EEZ_(\w+)', s)]: group 1 of the leftmost match. *)
Fixpoint search_eez (s : string) : option string :=
  match s with
  | EmptyString => None
  | String _ s' =>
      if String.prefix "EEZ_" s then
        let rest := sdrop 4 s in
        let n := span_len is_word rest in
        if (0 <? n)%nat then Some (stake n rest) else search_eez s'
      else search_eez s'
  end.

(** The greedy group [([\d_]+)] followed by [_Access]: the longest run of
    [k] characters, [k] from [n] down to 1, after which [_Access] follows. *)
Fixpoint backtrack_ship (rest : string) (k : nat) : option string :=
  match k with
  | O => None
  | S k' =>
      if String.prefix "_Access" (sdrop k rest) then Some (stake k rest)
      else backtrack_ship rest k'
  end.

(** [re.search(r'Ship([\d_]+)_Access', s)]: group 1 of the leftmost match. *)
Fixpoint search_ship (s : string) : option string :=
  match s with
  | EmptyString => None
  | String _ s' =>
      if String.prefix "Ship" s then
        let rest := sdrop 4 s in
        match backtrack_ship rest (span_len is_digit_or_underscore rest) with
        | Some g => Some g
        | None => search_ship s'
        end
      else search_ship s'
  end.

(** What [main] holds while it loops over the files.  Python lists are
    objects: [heap] holds the list objects that [parse_stk_csv] has returned
    so far, in order of creation, and [results[eez][ship]] is a reference
    into it. *)
Record store : Type := mkStore {
  results : gmap string (gmap string nat);
  heap : list (list pass);
  total_passes : Z
}.

Definition empty_store : store := mkStore ∅ [] 0.



Section ShipEez.
Context {B : PyBuiltins}.

(** The file system: the rows of the file of each name. *)
Variable fs : string -> list (list string).

(** [[int(s) for s in ship_str.split('_') if s]]; [None] when [int]
    raises. *)
Definition ship_numbers_of (ship_str : string) : option (list Z) :=
  mapM int_of_str (List.filter nonempty (split_on "_" ship_str)).

Definition ship_key_of (ship_num : Z) : string :=
  ("Ship" ++ str_of_Z ship_num)%string.

(** The EEZ name and the ship numbers a file name encodes: [None] when
    [main] skips the file, [Some None] when [int] raises. *)
Definition classify (filename : string) : option (option (string * list Z)) :=
  eez_name ← search_eez filename;
  ship_str ← search_ship filename;
  Some (ns ← ship_numbers_of ship_str; Some (eez_name, ns)).

(** The body of [for ship_num in ship_numbers]. *)
Definition store_ship (eez_name : string) (ref : nat) (len : Z)
    (st : store) (ship_num : Z) : store :=
  let ship_key := ship_key_of ship_num in
  let inner := default ∅ (results st !! eez_name) in
  mkStore (<[eez_name := <[ship_key := ref]> inner]> (results st))
          (heap st)
          (total_passes st + len).

(** The body of [for filepath in csv_files]; [None] is an exception that
    leaves [main]. *)
Definition process_file (st : store) (filename : string) : option store :=
  match search_eez filename with
  | None => Some st
  | Some eez_name =>
      match search_ship filename with
      | None => Some st
      | Some ship_str =>
          ship_numbers ← ship_numbers_of ship_str;
          let results1 :=
            match results st !! eez_name with
            | None => <[eez_name := ∅]> (results st)
            | Some _ => results st
            end in
          let passes := parse_stk_csv (fs filename) in
          let ref := length (heap st) in
          let st1 := mkStore results1 (heap st ++ [passes]) (total_passes st) in
          Some (foldl (store_ship eez_name ref (Z.of_nat (length passes)))
                      st1 ship_numbers)
      end
  end.

Fixpoint process_files (st : store) (csv_files : list string) : option store :=
  match csv_files with
  | [] => Some st
  | filepath :: rest => st' ← process_file st filepath; process_files st' rest
  end.

Definition main (csv_files : list string) : option store :=
  process_files empty_store csv_files.

End ShipEez.

(** ** pipeline.py: [compute_fusion_benefits] *)

(** The columns of [access_data] that the function reads.  The
    constellation size of a row is missing when the file name had no
    [Walker] part. *)
Record access_row : Type := mkAccessRow {
  ar_constellation_size : option Z;
  ar_sensor_type : string;
  ar_duration_seconds : Q
}.

(** One value of the dictionary that [compute_fusion_benefits] returns. *)
Record fusion_metrics : Type := mkFusionMetrics {
  constellation_size : Z;
  sar_coverage_pct : Q;
  optical_coverage_pct : Q;
  fusion_coverage_pct : Q;
  fusion_gain_multiplier : Q;
  latency_improvement_factor : Q;
  sar_passes : Z;
  optical_passes : Z
}.

(** Nearest integer, ties to the even one. *)
Definition round_half_even (q : Q) : Z :=
  let f := Qfloor q in
  let r := q - inject_Z f in
  if Qltb r (1 # 2) then f
  else if Qltb (1 # 2) r then (f + 1)%Z
  else if Z.even f then f else (f + 1)%Z.

(** [round(x, ndigits)] of a number: [x] scaled by [10 ^ ndigits], rounded
    to the nearest integer with ties to the even one, and scaled back. *)
Definition py_round (x : Q) (ndigits : nat) : Q :=
  let p := inject_Z (10 ^ Z.of_nat ndigits) in
  inject_Z (round_half_even (x * p)) / p.

(** The rows of one constellation size and one sensor type. *)
Definition select (access_data : list access_row) (size : Z) (sensor : string)
  : list access_row :=
  List.filter (fun r =>
    match ar_constellation_size r with
    | Some s => (s =? size)%Z
    | None => false
    end && String.eqb (ar_sensor_type r) sensor) access_data.

(** The body of the loop over the constellation sizes: the entry stored
    for [size], or [None] when the iteration is skipped. *)
Definition fusion_entry (access_data : list access_row) (size : Z)
  : option fusion_metrics :=
  let sar_data := select access_data size "SAR" in
  let optical_data := select access_data size "Optical" in
  if ((length sar_data =? 0) || (length optical_data =? 0))%nat then None
  else
    let sar_coverage :=
      (Qsum (map ar_duration_seconds sar_data) / (24 * 3600)) * 100 in
    let optical_coverage :=
      (Qsum (map ar_duration_seconds optical_data) / (24 * 3600)) * 100 in
    let fusion_coverage :=
      py_min2 (sar_coverage + optical_coverage * 0.5) 100 in
    let fusion_gain :=
      if Qltb 0 sar_coverage then fusion_coverage / sar_coverage else 0 in
    let sar_latency :=
      if (size =? 6)%Z then 5 + 10 + (4.8 * 60 / 4)
      else if (size =? 12)%Z then 5 + 10 + (2.1 * 60 / 4)
      else 5 + 10 + (0.35 * 60 / 4) in
    let optical_latency := sar_latency * 1.5 in
    let fusion_latency := (sar_latency + optical_latency) / 2 in
    let latency_improvement := sar_latency / fusion_latency in
    Some (mkFusionMetrics size
            (py_round sar_coverage 1)
            (py_round optical_coverage 1)
            (py_round fusion_coverage 1)
            (py_round fusion_gain 2)
            (py_round latency_improvement 2)
            (Z.of_nat (length sar_data))
            (Z.of_nat (length optical_data))).

Definition constellation_key (size : Z) : string :=
  ("constellation_" ++ str_of_Z size)%string.

Definition compute_fusion_benefits (access_data : list access_row)
  : gmap string fusion_metrics :=
  foldl (fun fusion_metrics size =>
           match fusion_entry access_data size with
           | Some e => <[constellation_key size := e]> fusion_metrics
           | None => fusion_metrics
           end)
        ∅ [6; 12; 32]%Z.

(** ** Sample data *)

(** A pass that starts one minute before the scenario epoch. *)
Definition early_pass : pass :=
  mkPass 0 1 "31 Dec 2025 23:59:00.000" "01 Jan 2026 00:04:00.000"
         "2025-12-31T23:59:00" "2026-01-01T00:04:00" 300
         1767225540 1767225840.

(** A pass at noon of the first day. *)
Definition noon_pass : pass :=
  mkPass 0 1 "01 Jan 2026 12:00:00.000" "01 Jan 2026 12:05:00.000"
         "2026-01-01T12:00:00" "2026-01-01T12:05:00" 300
         1767268800 1767269100.

(** A pass of the given start and stop, in seconds. *)
Definition span_pass (start stop : Q) : pass :=
  mkPass 0 1 EmptyString EmptyString EmptyString EmptyString (stop - start)
         start stop.

(** ** The properties in the words of the specification *)

(** The interval intersection of two passes is non-degenerate. *)
Definition overlapsb (a b : pass) : bool :=
  Qltb (Qmax (unix_start a) (unix_start b)) (Qmin (unix_stop a) (unix_stop b)).

(** The pairs, one pass from each series, that overlap. *)
Definition overlapping_pairs (series_a series_b : list pass)
  : list (pass * pass) :=
  List.filter (fun ab => overlapsb (fst ab) (snd ab))
              (list_prod series_a series_b).

(** The fusion window of a pair: its start and its stop. *)
Definition window_of (ab : pass * pass) : Q * Q :=
  (Qmax (unix_start (fst ab)) (unix_start (snd ab)),
   Qmin (unix_stop (fst ab)) (unix_stop (snd ab))).

Definition window_duration (ab : pass * pass) : Q :=
  snd (window_of ab) - fst (window_of ab).

(** [g] is a relay pass of least start among those of [relay_events] that
    start no earlier than the source pass [s] stops. *)
Definition first_relay_after (relay_events : list pass) (s g : pass) : Prop :=
  In g relay_events /\
  unix_stop s <= unix_start g /\
  forall g', In g' relay_events -> unix_stop s <= unix_start g' ->
             unix_start g <= unix_start g'.

(** No relay pass starts at or after the stop of [s]. *)
Definition undeliverable (relay_events : list pass) (s : pass) : Prop :=
  forall g, In g relay_events -> unix_start g < unix_stop s.

(** The latency samples of a sequence of source passes: one per source
    pass that has a relay pass after it, none for the others. *)
Inductive latency_samples (relay_events : list pass)
  : list pass -> list Q -> Prop :=
| samples_nil : latency_samples relay_events [] []
| samples_hit s g rest qs :
    first_relay_after relay_events s g ->
    latency_samples relay_events rest qs ->
    latency_samples relay_events (s :: rest)
                    ((unix_start g - unix_stop s) :: qs)
| samples_miss s rest qs :
    undeliverable relay_events s ->
    latency_samples relay_events rest qs ->
    latency_samples relay_events (s :: rest) qs.

Section ParserSpec.
Context {B : PyBuiltins}.

(** A raw row is a header row. *)
Definition header_row (raw : list string) : bool := is_header (clean_row raw).

(** The number of header rows among [rows]. *)
Definition count_headers (rows : list (list string)) : Z :=
  Z.of_nat (length (List.filter header_row rows)).

(** A raw row is read as a data row: it has four cells or more once
    cleaned, is not a header and does not start with a statistics
    label. *)
Definition data_row (raw : list string) : bool :=
  let row := clean_row raw in
  (4 <=? length row)%nat
  && negb (is_header row)
  && negb (startswith_any (nth 0 row EmptyString) STAT_LABELS).

(** The cell of index [i] of a raw row once cleaned. *)
Definition cell (raw : list string) (i : nat) : string :=
  nth i (clean_row raw) EmptyString.

(** The pass a raw row stands for under the satellite index [sid], when
    it is a data row whose cells convert. *)
Definition row_event (sid : Z) (raw : list string) : option pass :=
  if data_row raw then parse_data_row sid (clean_row raw) else None.

(** The number of cells of a raw row that are not empty once stripped of
    whitespace and of double quotes. *)
Definition cleaned_nonempty_cells (raw : list string) : nat :=
  length (List.filter (fun c => nonempty (strip_quotes (py_strip c))) raw).

(** The number of cells of a raw row that are not empty once stripped of
    whitespace. *)
Definition surviving_cells (raw : list string) : nat :=
  length (List.filter (fun c => nonempty (py_strip c)) raw).

(** The passes that a run of rows adds when it is entered with the
    satellite index [sid]. *)
Fixpoint events_from (sid : Z) (rows : list (list string)) : list pass :=
  match rows with
  | [] => []
  | raw :: rest =>
      if header_row raw then events_from (sid + 1)%Z rest
      else match row_event sid raw with
           | Some e => e :: events_from sid rest
           | None => events_from sid rest
           end
  end.

End ParserSpec.

(** Sample rows of an export. *)
Definition header_cells : list string :=
  ["Access"; "Start Time (UTCG)"; "Stop Time (UTCG)"; "Duration (sec)"]%string.

Definition pass_cells : list string :=
  ["1"; "1 Jan 2026 00:10:00.000"; "1 Jan 2026 00:15:00.000"; "300.000"]%string.


(** A header whose last two cells hold one double quote each. *)
Definition quoted_header_cells : list string :=
  ["Access"; "Start Time (UTCG)"; String dquote EmptyString;
   String dquote EmptyString]%string.


(** The data set holds a row of the given constellation size and sensor. *)
Definition has_rows (access_data : list access_row) (size : Z)
    (sensor : string) : Prop :=
  exists r, In r access_data /\ ar_constellation_size r = Some size /\
            ar_sensor_type r = sensor.

(** One SAR and one optical access of 100 seconds each, six satellites. *)
Definition small_dataset : list access_row :=
  [mkAccessRow (Some 6%Z) "SAR" 100; mkAccessRow (Some 6%Z) "Optical" 100].

(** * Further definitions *)

(** ** The parser on parts of a file *)

(** A pass with its satellite index moved by [k]. *)
Definition with_satellite_offset (k : Z) (p : pass) : pass :=
  mkPass (satellite_id p + k) (pass_num p) (start_time_str p)
         (stop_time_str p) (start_time p) (stop_time p) (duration_sec p)
         (unix_start p) (unix_stop p).

(** The string is empty or starts with a character outside [f]. *)
Definition head_kept (f : ascii -> bool) (s : string) : Prop :=
  match s with
  | EmptyString => True
  | String c _ => f c = false
  end.


(** ** compute_metrics.py: the detection rows of [main] *)

(** [a < b] on numbers that may be infinite. *)
Definition xltb (a b : xnum) : bool :=
  match a, b with
  | Fin x, Fin y => Qltb x y
  | Fin _, PInf => true
  | PInf, _ => false
  end.

(** [a <= b] on numbers that may be infinite. *)
Definition xle (a b : xnum) : Prop :=
  match a, b with
  | Fin x, Fin y => x <= y
  | _, PInf => True
  | PInf, Fin _ => False
  end.

(** [min(a, b)]: the first argument wins a tie. *)
Definition py_xmin2 (a b : xnum) : xnum := if xltb b a then b else a.

(** [x / c] for a positive constant [c]. *)
Definition xdiv_const (x : xnum) (c : Q) : xnum :=
  match x with
  | Fin q => Fin (q / c)
  | PInf => PInf
  end.

(** One row of [detection_rows].  [improvement_factor] is [None] when the
    division gives no number ([inf / inf]). *)
Record detection_row : Type := mkDetectionRow {
  sar_latency_min : xnum;
  optical_latency_min : xnum;
  fusion_latency_min : xnum;
  improvement_factor : option xnum
}.

(** [sar_latency / fusion_latency if fusion_latency > 0 else 0]. *)
Definition improvement_of (sar_latency fusion_latency : xnum) : option xnum :=
  match fusion_latency with
  | Fin f =>
      if Qltb 0 f then
        match sar_latency with
        | Fin s => Some (Fin (s / f))
        | PInf => Some PInf
        end
      else Some (Fin 0)
  | PInf =>
      match sar_latency with
      | Fin _ => Some (Fin 0)
      | PInf => None
      end
  end.

(** The body of the loop of [main] that fills [detection_rows], for the
    SAR and the optical passes of one ship and constellation. *)
Definition detection_row_of (sar_passes opt_passes : list pass) : detection_row :=
  let sar_latency := Metrics.compute_detection_latency sar_passes in
  let opt_latency := Metrics.compute_detection_latency opt_passes in
  let fusion_latency := py_xmin2 sar_latency opt_latency in
  mkDetectionRow (xdiv_const sar_latency 60) (xdiv_const opt_latency 60)
                 (xdiv_const fusion_latency 60)
                 (improvement_of sar_latency fusion_latency).

(** ** Revisit statistics *)


(** No two elements of the list have the same key. *)
Inductive distinct_keys {A} (key : A -> Q) : list A -> Prop :=
| distinct_nil : distinct_keys key []
| distinct_cons x l :
    (forall y, In y l -> ~ key x == key y) ->
    distinct_keys key l ->
    distinct_keys key (x :: l).



(** ** File names *)

(** Every character of the string is in the class [f]. *)
Fixpoint all_chars (f : ascii -> bool) (s : string) : bool :=
  match s with
  | EmptyString => true
  | String c s' => f c && all_chars f s'
  end.

(** A non-empty run of decimal digits. *)
Definition digit_string (s : string) : bool := nonempty s && all_chars is_digit s.

(** [int] reads every non-empty run of decimal digits. *)
Definition int_reads_digits (B : PyBuiltins) : Prop :=
  forall s, digit_string s = true -> is_Some (int_of_str s).

(** ** parse_stk_access.py: the file categories and [main] *)

(** The dictionary [mapping] of [get_file_category], in the order it is
    written. *)
Definition CATEGORY_MAPPING : list (string * (string * string * Z)) :=
  [ ("Ship1-Constellation6_SAR_Access.csv", ("Ship1", "SAR", 6%Z));
    ("Ship1-Constellation6_Optical_Access.csv", ("Ship1", "Optical", 6%Z));
    ("Ship1-Constellation12_SAR_Access.csv", ("Ship1", "SAR", 12%Z));
    ("Ship1-Constellation12_Optical_Access.csv", ("Ship1", "Optical", 12%Z));
    ("Ship1-Constellation32_SAR_Access.csv", ("Ship1", "SAR", 32%Z));
    ("Ship1-Constellation32_Optical_Access.csv", ("Ship1", "Optical", 32%Z));
    ("Ship2-Constellation6_SAR_Access.csv", ("Ship2", "SAR", 6%Z));
    ("Ship2-Constellation6_Optical_Access.csv", ("Ship2", "Optical", 6%Z));
    ("Ship2-Constellation12_SAR_Access.csv", ("Ship2", "SAR", 12%Z));
    ("Ship2-Constellation12_Optical_Access.csv", ("Ship2", "Optical", 12%Z));
    ("Ship2-Constellation32_SAR_Access.csv", ("Ship2", "SAR", 32%Z));
    ("Ship2-Constellation32_Optical_Access.csv", ("Ship2", "Optical", 32%Z));
    ("Ship3-Constellation6_SAR_Access.csv", ("Ship3", "SAR", 6%Z));
    ("Ship3-Constellation6_Optical_Access.csv", ("Ship3", "Optical", 6%Z));
    ("Ship3-Constellation12_SAR_Access.csv", ("Ship3", "SAR", 12%Z));
    ("Ship3-Constellation12_Optical_Access.csv", ("Ship3", "Optical", 12%Z));
    ("Ship3-Constellation32_SAR_Access.csv", ("Ship3", "SAR", 32%Z));
    ("Ship3-Constellation32_Optical_Access.csv", ("Ship3", "Optical", 32%Z));
    ("GS_Ahmedabad-Walker6_Access.csv", ("groundstations", "Ahmedabad", 6%Z));
    ("GS_Ahmedabad-Walker12_Access.csv", ("groundstations", "Ahmedabad", 12%Z));
    ("GS_Ahmedabad-Walker32_Access.csv", ("groundstations", "Ahmedabad", 32%Z));
    ("GS_Sriharikota-Walker6_Access.csv", ("groundstations", "Sriharikota", 6%Z));
    ("GS_Sriharikota-Walker12_Access.csv", ("groundstations", "Sriharikota", 12%Z));
    ("GS_Sriharikota-Walker32_Access.csv", ("groundstations", "Sriharikota", 32%Z))
  ]%string.

(** [mapping.get(filename, ...)]: the value of the key in a dictionary
    written as a list of items. *)
Fixpoint assoc_get {V} (k : string) (items : list (string * V)) : option V :=
  match items with
  | [] => None
  | (k', v) :: rest => if String.eqb k k' then Some v else assoc_get k rest
  end.

(** [get_file_category]: [None] stands for the triple of [None]s. *)
Definition get_file_category (filename : string) : option (string * string * Z) :=
  assoc_get filename CATEGORY_MAPPING.

(** The file name that the naming scheme gives a category. *)
Definition category_name (cat : string * string * Z) : string :=
  let '(target, sensor, constellation) := cat in
  if String.eqb target "groundstations"
  then ("GS_" ++ sensor ++ "-Walker" ++ str_of_Z constellation
        ++ "_Access.csv")%string
  else (target ++ "-Constellation" ++ str_of_Z constellation ++ "_" ++ sensor
        ++ "_Access.csv")%string.

(** What [main] of parse_stk_access.py holds while it loops. *)
Record access_store : Type := mkAccessStore {
  as_results : gmap string (gmap string (gmap Z (list pass)));
  as_total_passes : Z;
  as_total_duration : Q;
  as_processed : Z
}.

Definition empty_access_store : access_store := mkAccessStore ∅ 0 0 0.

(** [results[target][sensor][constellation]], when the three keys exist. *)
Definition lookup3 (st : access_store) (target sensor : string) (c : Z)
  : option (list pass) :=
  by_sensor ← as_results st !! target;
  by_const ← by_sensor !! sensor;
  by_const !! c.

Section AccessMain.
Context {B : PyBuiltins}.
Variable fs : string -> list (list string).

(** The body of [for filepath in csv_files]. *)
Definition access_file (st : access_store) (filename : string) : access_store :=
  match get_file_category filename with
  | None => st
  | Some (target, sensor, constellation) =>
      let by_sensor := default ∅ (as_results st !! target) in
      let by_const := default ∅ (by_sensor !! sensor) in
      let passes := parse_stk_csv (fs filename) in
      let file_passes := Z.of_nat (length passes) in
      let file_duration := Qsum (map duration_sec passes) in
      mkAccessStore
        (<[target := <[sensor := <[constellation := passes]> by_const]> by_sensor]>
           (as_results st))
        (as_total_passes st + file_passes)
        (as_total_duration st + file_duration)
        (as_processed st + 1)
  end.

Definition access_main (csv_files : list string) : access_store :=
  fold_left access_file csv_files empty_access_store.

End AccessMain.

(** The categories of the naming scheme: three ships with two sensors and
    two ground stations, each for three constellation sizes. *)
Definition KNOWN_CATEGORIES : list (string * string * Z) :=
  flat_map (fun target =>
    flat_map (fun constellation =>
      map (fun sensor => (target, sensor, constellation))
          ["SAR"; "Optical"]%string) [6; 12; 32]%Z)
    ["Ship1"; "Ship2"; "Ship3"]%string
  ++ flat_map (fun station =>
       map (fun constellation => ("groundstations"%string, station, constellation))
           [6; 12; 32]%Z) ["Ahmedabad"; "Sriharikota"]%string.

(** The file name is one that [get_file_category] knows. *)
Definition recognised (filename : string) : bool :=
  match get_file_category filename with
  | Some _ => true
  | None => false
  end.

(** ** pipeline.py: [compute_coverage_metrics] *)

(** The columns of [access_data] that the function reads; [access_start]
    is the time [pd.to_datetime] gives, in seconds. *)
Record coverage_row : Type := mkCoverageRow {
  cr_constellation_size : option Z;
  cr_access_start : Q;
  cr_duration_seconds : Q
}.

(** One value of the dictionary that [compute_coverage_metrics] returns. *)
Record coverage_metrics : Type := mkCoverageMetrics {
  cm_constellation_size : Z;
  cm_coverage_pct : Q;
  cm_revisit_time_hours : xnum;
  cm_detection_latency_min : xnum;
  cm_num_passes : Z;
  cm_total_access_time_hours : Q
}.

(** [round(x, ndigits)] of a number that may be infinite. *)
Definition py_xround (x : xnum) (ndigits : nat) : xnum :=
  match x with
  | Fin q => Fin (py_round q ndigits)
  | PInf => PInf
  end.

(** [times.diff()] without its first, undefined entry: each time minus
    the one before it. *)
Fixpoint consecutive_diffs (times : list Q) : list Q :=
  match times with
  | [] => []
  | x :: rest =>
      match rest with
      | [] => []
      | y :: _ => (y - x) :: consecutive_diffs rest
      end
  end.

(** The rows of one constellation size. *)
Definition of_size (access_data : list coverage_row) (size : Z)
  : list coverage_row :=
  List.filter (fun r =>
    match cr_constellation_size r with
    | Some s => (s =? size)%Z
    | None => false
    end) access_data.

(** The local [revisit_time_hours]: the mean of the differences between
    consecutive sorted start times, in hours, or infinity for one row. *)
Definition revisit_time_hours_of (const_data : list coverage_row) : xnum :=
  if (1 <? length const_data)%nat then
    let times := sorted_by (fun t => t) (map cr_access_start const_data) in
    let time_diffs := map (fun d => d / 3600) (consecutive_diffs times) in
    Fin (np_mean time_diffs)
  else PInf.

(** The body of the loop over the constellation sizes. *)
Definition coverage_entry (access_data : list coverage_row) (size : Z)
  : option coverage_metrics :=
  let const_data := of_size access_data size in
  if (length const_data =? 0)%nat then None
  else
    let total_access_time := Qsum (map cr_duration_seconds const_data) in
    let total_period_seconds := 24 * 3600 in
    let coverage_pct := (total_access_time / total_period_seconds) * 100 in
    let revisit_time_hours := revisit_time_hours_of const_data in
    let detection_latency_min :=
      match revisit_time_hours with
      | Fin r => Fin (5 + 10 + (r * 60 / 4))
      | PInf => PInf
      end in
    Some (mkCoverageMetrics size
            (py_round coverage_pct 1)
            (py_xround revisit_time_hours 2)
            (py_xround detection_latency_min 0)
            (Z.of_nat (length const_data))
            (py_round (total_access_time / 3600) 1)).

Definition compute_coverage_metrics (access_data : list coverage_row)
  : gmap string coverage_metrics :=
  foldl (fun metrics size =>
           match coverage_entry access_data size with
           | Some e => <[constellation_key size := e]> metrics
           | None => metrics
           end)
        ∅ [6; 12; 32]%Z.

(** * Proofs *)

(** ** Comparisons, minima and maxima *)

Lemma Qltb_lt x y : Qltb x y = true <-> x < y.
Proof.
  unfold Qltb. rewrite negb_true_iff.
  destruct (Qle_bool y x) eqn:E.
  - apply Qle_bool_iff in E. split; [discriminate | intros H; lra].
  - split; [intros _ | reflexivity].
    destruct (Qlt_le_dec x y) as [H | H]; [exact H |].
    apply Qle_bool_iff in H. congruence.
Qed.

Lemma Qltb_ge x y : Qltb x y = false <-> y <= x.
Proof.
  unfold Qltb. rewrite negb_false_iff. apply Qle_bool_iff.
Qed.

Ltac case_Qltb :=
  match goal with
  | |- context [Qltb ?a ?b] =>
      let E := fresh "E" in
      destruct (Qltb a b) eqn:E;
      [apply Qltb_lt in E | apply Qltb_ge in E]
  end.

Lemma py_max2_spec a b : py_max2 a b == Qmax a b.
Proof.
  unfold py_max2. case_Qltb.
  - symmetry. apply Q.max_r. lra.
  - symmetry. apply Q.max_l. lra.
Qed.

Lemma py_min2_spec a b : py_min2 a b == Qmin a b.
Proof.
  unfold py_min2. case_Qltb.
  - symmetry. apply Q.min_r. lra.
  - symmetry. apply Q.min_l. lra.
Qed.

Lemma min_by_In {A} (key : A -> Q) xs : forall x, In (min_by key x xs) (x :: xs).
Proof.
  induction xs as [| y ys IH]; intros x; simpl.
  - now left.
  - specialize (IH (if Qltb (key y) (key x) then y else x)).
    destruct IH as [H | H]; [| now right; right].
    rewrite <- H. destruct (Qltb (key y) (key x)); auto.
Qed.

Lemma min_by_le_head {A} (key : A -> Q) xs :
  forall x, key (min_by key x xs) <= key x.
Proof.
  induction xs as [| y ys IH]; intros x; simpl.
  - lra.
  - specialize (IH (if Qltb (key y) (key x) then y else x)).
    revert IH. case_Qltb; intros IH; lra.
Qed.

Lemma min_by_le {A} (key : A -> Q) xs :
  forall x e, In e (x :: xs) -> key (min_by key x xs) <= key e.
Proof.
  induction xs as [| y ys IH]; intros x e He.
  - destruct He as [<- | []]. simpl. lra.
  - simpl.
    pose proof (min_by_le_head key ys (if Qltb (key y) (key x) then y else x)) as Hh.
    destruct He as [<- | [<- | He]].
    + revert Hh. case_Qltb; intros Hh; lra.
    + revert Hh. case_Qltb; intros Hh; lra.
    + apply IH. now right.
Qed.


(** ** Detection latency *)

(** C1, as stated, fails.  compute_eez_metrics.py returns minutes: for a
    pass at noon of the first day, 43200 seconds after the scenario start,
    it returns 720.  compute_metrics.py does not clamp: for a pass that
    starts one minute before the scenario start it returns -60. *)
Lemma detection_latency_minutes_or_negative :
  unix_start noon_pass - SCENARIO_START == 43200 /\
  (exists q, EezMetrics.compute_detection_latency [noon_pass] = Fin q /\
             q == 720) /\
  (exists q, Metrics.compute_detection_latency [early_pass] = Fin q /\
             q < 0).
Proof.
  split; [vm_compute; reflexivity |]. split.
  - eexists. split; [reflexivity |]. vm_compute. reflexivity.
  - eexists. split; [reflexivity |]. vm_compute. reflexivity.
Qed.

(** C1 (amended): both variants return [float('inf')] for an empty list.
    For a non-empty list let [first] be a pass of least [unix_start]:
    compute_eez_metrics.py returns the span from the scenario epoch to that
    start in minutes, clamped at zero, which is never negative;
    compute_metrics.py returns the span in seconds whenever the first pass
    does not start before the epoch. *)
Theorem detection_latency_by_design (passes : list pass) :
  match passes with
  | [] =>
      Metrics.compute_detection_latency passes = PInf /\
      EezMetrics.compute_detection_latency passes = PInf
  | _ :: _ =>
      exists first,
        In first passes /\
        (forall e, In e passes -> unix_start first <= unix_start e) /\
        (exists r, EezMetrics.compute_detection_latency passes = Fin r /\
                   r == Qmax 0 ((unix_start first - SCENARIO_START) / 60) /\
                   0 <= r) /\
        (SCENARIO_START <= unix_start first ->
         exists r, Metrics.compute_detection_latency passes = Fin r /\
                   r == unix_start first - SCENARIO_START /\
                   0 <= r)
  end.
Proof.
  destruct passes as [| p ps]; [split; reflexivity |].
  exists (min_by unix_start p ps).
  split; [apply min_by_In |].
  split; [intros e He; now apply min_by_le |].
  split.
  - eexists. split; [reflexivity |].
    split; [apply py_max2_spec |].
    rewrite py_max2_spec. apply Q.le_max_l.
  - intros Hge. eexists. split; [reflexivity |].
    split; [reflexivity | lra].
Qed.

Lemma detection_latency_by_design_witness :
  exists r, Metrics.compute_detection_latency [noon_pass] = Fin r /\ 0 <= r.
Proof.
  destruct (detection_latency_by_design [noon_pass])
    as (first & Hin & _ & _ & Hm).
  destruct Hin as [<- | []].
  destruct Hm as (r & Hr & _ & Hpos); [vm_compute; discriminate |].
  exists r. split; assumption.
Defined.

(** ** Sorting *)

Lemma insert_by_perm {A} (key : A -> Q) x xs :
  Permutation (insert_by key x xs) (x :: xs).
Proof.
  induction xs as [| y ys IH]; simpl; [reflexivity |].
  destruct (Qltb (key y) (key x)); [| reflexivity].
  rewrite IH. apply perm_swap.
Qed.

Lemma sorted_by_perm {A} (key : A -> Q) xs :
  Permutation (sorted_by key xs) xs.
Proof.
  induction xs as [| x xs IH]; simpl; [reflexivity |].
  rewrite insert_by_perm. now apply perm_skip.
Qed.


Lemma sorted_by_In {A} (key : A -> Q) (xs : list A) x :
  In x (sorted_by key xs) <-> In x xs.
Proof.
  split; apply Permutation_in;
    [apply sorted_by_perm | symmetry; apply sorted_by_perm].
Qed.

(** The keys of the result ascend. *)
Definition ascending {A} (key : A -> Q) (xs : list A) : Prop :=
  forall i x y, xs !! i = Some x -> xs !! S i = Some y -> key x <= key y.

Lemma ascending_cons {A} (key : A -> Q) x y (ys : list A) :
  key x <= key y -> ascending key (y :: ys) -> ascending key (x :: y :: ys).
Proof.
  intros Hxy Hs [| i] a b Ha Hb; simpl in *.
  - congruence.
  - eapply Hs; eassumption.
Qed.

Lemma ascending_tail {A} (key : A -> Q) x (xs : list A) :
  ascending key (x :: xs) -> ascending key xs.
Proof. intros Hs i a b Ha Hb. apply (Hs (S i)); assumption. Qed.

Lemma insert_by_ascending {A} (key : A -> Q) x (xs : list A) :
  ascending key xs -> ascending key (insert_by key x xs).
Proof.
  induction xs as [| y ys IH]; intros Hs; simpl.
  - intros [| i] a b Ha Hb; discriminate.
  - case_Qltb.
    + specialize (IH (ascending_tail _ _ _ Hs)).
      destruct ys as [| z zs]; simpl in *.
      * apply ascending_cons; [lra | exact IH].
      * revert IH. case_Qltb; intros IH.
        -- apply ascending_cons; [| exact IH].
           apply (Hs 0%nat); reflexivity.
        -- apply ascending_cons; [lra | exact IH].
    + apply ascending_cons; assumption.
Qed.

Lemma sorted_by_ascending {A} (key : A -> Q) (xs : list A) :
  ascending key (sorted_by key xs).
Proof.
  induction xs as [| x xs IH]; simpl.
  - intros i a b Ha; discriminate.
  - now apply insert_by_ascending.
Qed.

(** ** Revisit times *)

(** No gap is kept when every pass starts no later than the pass before it
    stops. *)
Lemma adjacent_gaps_none conv (s : list pass) :
  (forall i p q, s !! i = Some p -> s !! S i = Some q ->
                 unix_start q - unix_stop p <= 0) ->
  adjacent_gaps conv s = [].
Proof.
  induction s as [| p rest IH]; intros H; [reflexivity |].
  destruct rest as [| q rest']; [reflexivity |].
  simpl. case_Qltb.
  - specialize (H 0%nat p q eq_refl eq_refl). lra.
  - apply IH. intros i a b Ha Hb. apply (H (S i)); assumption.
Qed.


(** C2, as stated, fails: two overlapping passes have no positive gap, and
    the functions report 0 for min, mean and median, not infinity; and the
    count that compute_eez_metrics.py reports is 0 for a single pass too,
    so the count does not tell the two cases apart. *)
Lemma revisit_no_gap_is_zero_not_inf :
  let covered := [span_pass 0 100; span_pass 50 150] in
  let single := [span_pass 0 100] in
  rv_min (EezMetrics.compute_revisit_times covered) <> PInf /\
  rv_mean (EezMetrics.compute_revisit_times covered) <> PInf /\
  rv_median (EezMetrics.compute_revisit_times covered) <> PInf /\
  rv_min (Metrics.compute_revisit_times covered) <> PInf /\
  rv_count (EezMetrics.compute_revisit_times covered)
  = rv_count (EezMetrics.compute_revisit_times single).
Proof. vm_compute. repeat split; discriminate. Qed.

(** C2 (amended): [passes] is a list whose sorted adjacent gaps are all
    non-positive, which includes every list of fewer than two passes.
    With fewer than two passes both variants report infinity for min, mean
    and median and 0 for max; with two or more they report 0 for min,
    mean, median and max.  compute_eez_metrics.py reports the count 0 in
    both cases, so the caller tells them apart by min, mean or median. *)
Theorem revisit_degenerate_by_design (passes : list pass) :
  (forall i p q,
      sorted_by unix_start passes !! i = Some p ->
      sorted_by unix_start passes !! S i = Some q ->
      unix_start q - unix_stop p <= 0) ->
  let e := EezMetrics.compute_revisit_times passes in
  let m := Metrics.compute_revisit_times passes in
  if (length passes <? 2)%nat
  then e = mkRevisit PInf PInf (Fin 0) PInf (Some 0%Z) /\
       rv_min m = PInf /\ rv_mean m = PInf /\ rv_median m = PInf /\
       rv_max m = Fin 0
  else e = mkRevisit (Fin 0) (Fin 0) (Fin 0) (Fin 0) (Some 0%Z) /\
       rv_min m = Fin 0 /\ rv_mean m = Fin 0 /\ rv_median m = Fin 0 /\
       rv_max m = Fin 0.
Proof.
  intros H e m. subst e m.
  unfold EezMetrics.compute_revisit_times, Metrics.compute_revisit_times.
  destruct (length passes <? 2)%nat; [repeat split; reflexivity |].
  rewrite !(adjacent_gaps_none _ _ H). repeat split; reflexivity.
Qed.

Lemma revisit_degenerate_by_design_witness :
  EezMetrics.compute_revisit_times [span_pass 0 100; span_pass 50 150]
  = mkRevisit (Fin 0) (Fin 0) (Fin 0) (Fin 0) (Some 0%Z).
Proof.
  refine (proj1 (revisit_degenerate_by_design
                   [span_pass 0 100; span_pass 50 150] _)).
  intros [| [| i]] p q Hp Hq; simpl in Hp, Hq; try discriminate.
  inversion Hp; inversion Hq; subst. vm_compute. discriminate.
Defined.

(** ** Sums *)

Lemma fold_left_Qplus (xs : list Q) : forall a,
  fold_left Qplus xs a == a + fold_left Qplus xs 0.
Proof.
  induction xs as [| x xs IH]; intros a; simpl.
  - lra.
  - rewrite IH, (IH (0 + x)). lra.
Qed.

Lemma Qsum_cons x (xs : list Q) : Qsum (x :: xs) == x + Qsum xs.
Proof. unfold Qsum. simpl. rewrite fold_left_Qplus. lra. Qed.


Lemma Qsum_perm (xs ys : list Q) : Permutation xs ys -> Qsum xs == Qsum ys.
Proof.
  induction 1 as [| x xs ys _ IH | x y xs | xs ys zs _ IH1 _ IH2].
  - reflexivity.
  - rewrite !Qsum_cons, IH. reflexivity.
  - rewrite !Qsum_cons. lra.
  - now rewrite IH1.
Qed.

Lemma Qsum_Forall2 (xs ys : list Q) :
  Forall2 Qeq xs ys -> Qsum xs == Qsum ys.
Proof.
  induction 1 as [| x y xs ys Hxy _ IH]; [reflexivity |].
  rewrite !Qsum_cons, Hxy, IH. reflexivity.
Qed.


(** ** Coverage percentage *)






(** ** Fusion windows *)


Lemma flat_map_perm_pointwise {A C} (f g : A -> list C) (l : list A) :
  (forall a, Permutation (f a) (g a)) ->
  Permutation (flat_map f l) (flat_map g l).
Proof.
  intros H. induction l as [| a l IH]; simpl; [reflexivity |].
  now apply Permutation_app.
Qed.

Lemma fusion_overlaps_perm (A A' B B' : list pass) :
  Permutation A A' -> Permutation B B' ->
  Permutation (Metrics.fusion_overlaps A B) (Metrics.fusion_overlaps A' B').
Proof.
  intros HA HB. unfold Metrics.fusion_overlaps.
  etransitivity.
  - apply Permutation_flat_map, HA.
  - apply flat_map_perm_pointwise. intros a.
    apply Permutation_flat_map, HB.
Qed.

Lemma py_max2_Qmax a b : py_max2 a b = Qmax a b.
Proof.
  unfold py_max2, Qmax, GenericMinMax.gmax.
  destruct (a ?= b) eqn:C;
    [rewrite <- Qeq_alt in C | rewrite <- Qlt_alt in C | rewrite <- Qgt_alt in C];
    case_Qltb; try reflexivity; lra.
Qed.

Lemma py_min2_Qmin a b : py_min2 a b = Qmin a b.
Proof.
  unfold py_min2, Qmin, GenericMinMax.gmin.
  destruct (a ?= b) eqn:C;
    [rewrite <- Qeq_alt in C | rewrite <- Qlt_alt in C | rewrite <- Qgt_alt in C];
    case_Qltb; try reflexivity; lra.
Qed.

(** The scan finds one window for each overlapping pair, in the order of
    the pairs. *)
Lemma fusion_windows_pairs (A B : list pass) :
  Metrics.fusion_windows A B = map window_of (overlapping_pairs A B).
Proof.
  unfold Metrics.fusion_windows, overlapping_pairs.
  induction A as [| a A IH]; simpl; [reflexivity |].
  rewrite List.filter_app, map_app, IH. f_equal.
  clear IH. induction B as [| b B IH]; simpl; [reflexivity |].
  unfold overlapsb at 1. simpl.
  rewrite py_max2_Qmax, py_min2_Qmin.
  destruct (Qltb (Qmax _ _) (Qmin _ _)); simpl; rewrite IH; reflexivity.
Qed.

(** The durations appended are those of the windows found. *)
Lemma fusion_overlaps_windows (A B : list pass) :
  Metrics.fusion_overlaps A B
  = map (fun w => snd w - fst w) (Metrics.fusion_windows A B).
Proof.
  unfold Metrics.fusion_overlaps, Metrics.fusion_windows.
  induction A as [| a A IH]; simpl; [reflexivity |].
  rewrite map_app, IH. f_equal.
  clear IH. induction B as [| b B IH]; simpl; [reflexivity |].
  destruct (Qltb _ _); simpl; rewrite IH; reflexivity.
Qed.

Lemma fusion_windows_perm (A A' B B' : list pass) :
  Permutation A A' -> Permutation B B' ->
  Permutation (Metrics.fusion_windows A B) (Metrics.fusion_windows A' B').
Proof.
  intros HA HB. unfold Metrics.fusion_windows.
  etransitivity.
  - apply Permutation_flat_map, HA.
  - apply flat_map_perm_pointwise. intros a.
    apply Permutation_flat_map, HB.
Qed.

Lemma fusion_overlaps_pairs (A B : list pass) :
  Metrics.fusion_overlaps A B = map window_duration (overlapping_pairs A B).
Proof.
  rewrite fusion_overlaps_windows, fusion_windows_pairs, map_map.
  reflexivity.
Qed.

Lemma fusion_windows_fields (A B : list pass) :
  let overlaps := Metrics.fusion_overlaps (sorted_by unix_start A)
                                          (sorted_by unix_start B) in
  fw_count (Metrics.compute_fusion_windows A B) = Z.of_nat (length overlaps) /\
  fw_total_duration (Metrics.compute_fusion_windows A B) == Qsum overlaps.
Proof.
  intros overlaps. subst overlaps.
  unfold Metrics.compute_fusion_windows.
  destruct A as [| a A]; [split; reflexivity |].
  destruct B as [| b B].
  - replace (sorted_by unix_start []) with (@nil pass) by reflexivity.
    assert (E : Metrics.fusion_overlaps (sorted_by unix_start (a :: A)) [] = []).
    { unfold Metrics.fusion_overlaps.
      induction (sorted_by unix_start (a :: A)); simpl; auto. }
    rewrite E. split; reflexivity.
  - destruct (Metrics.fusion_overlaps _ _); split; reflexivity.
Qed.

(** C5: the fusion-window computation finds exactly one window for each
    pair, one pass from each series, whose intersection [max start, min stop]
    has start < stop, and none for a degenerate pair: the windows its loops
    find are, up to their order, the intersections of the overlapping
    pairs, the reported count is their number and the reported total the
    sum of their durations.  The passes [0,100] and [50,150] give the
    single window [50,100], reported with count 1 and duration 50. *)
Theorem fusion_windows_pairwise (series_a series_b : list pass) :
  let w := Metrics.compute_fusion_windows series_a series_b in
  let pairs := overlapping_pairs series_a series_b in
  (forall a b, In (a, b) pairs <->
               In a series_a /\ In b series_b /\
               fst (window_of (a, b)) < snd (window_of (a, b))) /\
  Permutation (Metrics.fusion_windows (sorted_by unix_start series_a)
                                      (sorted_by unix_start series_b))
              (map window_of pairs) /\
  fw_count w = Z.of_nat (length pairs) /\
  fw_total_duration w == Qsum (map window_duration pairs) /\
  Metrics.fusion_windows (sorted_by unix_start [span_pass 0 100])
                         (sorted_by unix_start [span_pass 50 150])
  = [(50, 100)] /\
  let w1 := Metrics.compute_fusion_windows [span_pass 0 100] [span_pass 50 150] in
  fw_count w1 = 1%Z /\ fw_total_duration w1 == 50 /\
  fw_mean_duration w1 == 50 /\ fw_max_duration w1 == 50.
Proof.
  intros w pairs. subst w pairs.
  pose proof (sorted_by_perm unix_start series_a) as Pa.
  pose proof (sorted_by_perm unix_start series_b) as Pb.
  split; [| split; [| split; [| split; [| split]]]].
  - intros a b. unfold overlapping_pairs.
    rewrite List.filter_In, in_prod_iff. unfold overlapsb. simpl.
    rewrite Qltb_lt. tauto.
  - rewrite <- fusion_windows_pairs. now apply fusion_windows_perm.
  - destruct (fusion_windows_fields series_a series_b) as [-> _].
    rewrite (Permutation_length (fusion_overlaps_perm _ _ _ _ Pa Pb)).
    now rewrite fusion_overlaps_pairs, length_map.
  - destruct (fusion_windows_fields series_a series_b) as [_ ->].
    rewrite (Qsum_perm _ _ (fusion_overlaps_perm _ _ _ _ Pa Pb)).
    now rewrite fusion_overlaps_pairs.
  - reflexivity.
  - vm_compute. repeat split; reflexivity.
Qed.

(** ** Delivery latency *)

Lemma filter_nil_iff {A} (f : A -> bool) (l : list A) :
  List.filter f l = [] <-> forall x, In x l -> f x = false.
Proof.
  induction l as [| a l IH]; simpl.
  - split; [intros _ x [] | reflexivity].
  - destruct (f a) eqn:E.
    + split; [discriminate |]. intros H. specialize (H a (or_introl eq_refl)).
      congruence.
    + rewrite IH. split.
      * intros H x [<- | Hx]; auto.
      * intros H x Hx. apply H. now right.
Qed.

Lemma delivery_latencies_samples (R R' : list pass) :
  (forall g, In g R' <-> In g R) ->
  forall S, latency_samples R S (Metrics.delivery_latencies S R').
Proof.
  intros HR. induction S as [| s S IH]; [constructor |].
  unfold Metrics.delivery_latencies in *. simpl.
  destruct (List.filter _ R') as [| c cs] eqn:E.
  - simpl. apply samples_miss; [| exact IH].
    intros g Hg. apply HR in Hg.
    pose proof (proj1 (filter_nil_iff _ _) E g Hg) as Hf. simpl in Hf.
    destruct (Qlt_le_dec (unix_start g) (unix_stop s)) as [Hlt | Hle]; [exact Hlt |].
    apply Qle_bool_iff in Hle. congruence.
  - simpl. apply samples_hit; [| exact IH].
    assert (Hc : forall x, In x (c :: cs) <->
                           In x R /\ unix_stop s <= unix_start x).
    { intros x. rewrite <- E, List.filter_In, Qle_bool_iff, HR. tauto. }
    repeat split.
    + apply Hc, min_by_In.
    + apply Hc, min_by_In.
    + intros g' Hg' Hle. apply min_by_le, Hc. now split.
Qed.

Lemma latency_samples_all_miss (R S : list pass) qs :
  latency_samples R S qs ->
  (forall s, In s S -> undeliverable R s) -> qs = [].
Proof.
  induction 1 as [| s g rest qs Hhit _ IH | s rest qs _ _ IH]; intros Hall.
  - reflexivity.
  - exfalso. destruct Hhit as (Hin & Hle & _).
    specialize (Hall s (or_introl eq_refl) g Hin). lra.
  - apply IH. intros s' Hs'. apply Hall. now right.
Qed.

Lemma delivery_latencies_no_relay (S : list pass) :
  Metrics.delivery_latencies S [] = [].
Proof.
  unfold Metrics.delivery_latencies. induction S; simpl; auto.
Qed.

(** C6: the latency samples are taken over the source passes in order of
    their stop; each source pass that some relay pass follows contributes
    the wait until the relay pass of least start among those that start at
    or after its stop, and a source pass that none follows contributes no
    sample.  When no source pass has a match, min, mean and max are all
    positive infinity; otherwise they are taken over the samples. *)
Theorem delivery_latency_first_relay (source_events relay_events : list pass) :
  let res := Metrics.compute_delivery_latency source_events relay_events in
  exists samples,
    latency_samples relay_events (sorted_by unix_stop source_events) samples /\
    match samples with
    | [] => res = mkDelivery PInf PInf PInf None
    | _ :: _ =>
        res = mkDelivery (Fin (list_min samples)) (Fin (np_mean samples))
                         (Fin (list_max samples))
                         (Some (Z.of_nat (length samples)))
    end /\
    ((forall s, In s source_events -> undeliverable relay_events s) ->
     dl_min res = PInf /\ dl_mean res = PInf /\ dl_max res = PInf).
Proof.
  intros res. subst res.
  set (L := Metrics.delivery_latencies (sorted_by unix_stop source_events)
                                       (sorted_by unix_start relay_events)).
  assert (Hs : latency_samples relay_events
                 (sorted_by unix_stop source_events) L).
  { apply delivery_latencies_samples. intros g. apply sorted_by_In. }
  assert (Hres :
    Metrics.compute_delivery_latency source_events relay_events
    = match L with
      | [] => mkDelivery PInf PInf PInf None
      | _ :: _ => mkDelivery (Fin (list_min L)) (Fin (np_mean L))
                             (Fin (list_max L))
                             (Some (Z.of_nat (length L)))
      end).
  { subst L. unfold Metrics.compute_delivery_latency.
    destruct source_events as [| s S]; [reflexivity |].
    destruct relay_events as [| g R]; [| reflexivity].
    replace (sorted_by unix_start []) with (@nil pass) by reflexivity.
    rewrite delivery_latencies_no_relay. reflexivity. }
  exists L. split; [exact Hs |]. split.
  - rewrite Hres. destruct L; reflexivity.
  - intros Hall. rewrite Hres, (latency_samples_all_miss _ _ _ Hs).
    + repeat split.
    + intros s Hin. apply Hall. revert Hin. apply sorted_by_In.
Qed.

Lemma delivery_latency_first_relay_witness :
  dl_min (Metrics.compute_delivery_latency
            [span_pass 200 300] [span_pass 0 100; span_pass 50 150]) = PInf.
Proof.
  destruct (delivery_latency_first_relay
              [span_pass 200 300] [span_pass 0 100; span_pass 50 150])
    as (samples & _ & _ & Hnone).
  apply Hnone.
  intros s [<- | []] g [<- | [<- | []]]; vm_compute; reflexivity.
Defined.

(** ** The access-record parser *)

Section ParserFacts.
Context {B : PyBuiltins}.

Lemma header_row_long raw :
  header_row raw = true -> (4 <=? length (clean_row raw))%nat = true.
Proof.
  unfold header_row, is_header. intros H.
  apply andb_prop in H as [H _]. apply andb_prop in H as [_ H]. exact H.
Qed.

Lemma scan_row_cases st raw :
  scan_row st raw =
  if header_row raw then (fst st, (snd st + 1)%Z)
  else match row_event (snd st) raw with
       | Some e => (fst st ++ [e], snd st)
       | None => st
       end.
Proof.
  destruct st as [passes sid]. unfold scan_row, row_event, data_row.
  cbn [fst snd]. rewrite Nat.ltb_antisym.
  destruct (header_row raw) eqn:Hh.
  - rewrite (header_row_long _ Hh). unfold header_row in Hh.
    now rewrite Hh.
  - unfold header_row in Hh. rewrite Hh.
    destruct (4 <=? length (clean_row raw))%nat; [| reflexivity].
    cbn [negb andb].
    destruct (startswith_any _ _); reflexivity.
Qed.

Lemma count_headers_cons raw rows :
  count_headers (raw :: rows)
  = ((if header_row raw then 1 else 0) + count_headers rows)%Z.
Proof.
  unfold count_headers. simpl. destruct (header_row raw); simpl; lia.
Qed.

Lemma count_headers_app rows1 rows2 :
  count_headers (rows1 ++ rows2)
  = (count_headers rows1 + count_headers rows2)%Z.
Proof.
  unfold count_headers. rewrite List.filter_app, length_app. lia.
Qed.

Lemma count_headers_nonneg rows : (0 <= count_headers rows)%Z.
Proof. unfold count_headers. lia. Qed.

Lemma scan_rows_events rows : forall passes sid,
  scan_rows rows (passes, sid)
  = (passes ++ events_from sid rows, (sid + count_headers rows)%Z).
Proof.
  unfold scan_rows.
  induction rows as [| raw rows IH]; intros passes sid.
  - simpl. rewrite app_nil_r. f_equal. unfold count_headers. simpl. lia.
  - cbn [fold_left events_from]. rewrite scan_row_cases, count_headers_cons.
    cbn [fst snd]. destruct (header_row raw).
    + rewrite IH. f_equal; lia.
    + destruct (row_event sid raw) as [e |]; rewrite IH.
      * rewrite <- app_assoc. f_equal; lia.
      * f_equal; lia.
Qed.

Lemma parse_stk_csv_events rows :
  parse_stk_csv rows = events_from (-1) rows.
Proof. unfold parse_stk_csv. now rewrite scan_rows_events. Qed.

Lemma row_event_header raw sid : header_row raw = true -> row_event sid raw = None.
Proof.
  unfold row_event, data_row, header_row. intros ->.
  now rewrite andb_false_r.
Qed.

(** Every pass comes from one row, under the index that the headers
    before that row give; and every row that stands for a pass yields
    it. *)
Lemma events_from_In rows : forall sid e,
  In e (events_from sid rows) <->
  exists pre raw post,
    rows = pre ++ raw :: post /\
    row_event (sid + count_headers pre)%Z raw = Some e.
Proof.
  induction rows as [| raw rows IH]; intros sid e.
  - simpl. split; [intros [] |].
    intros (pre & r & post & H & _). destruct pre; discriminate.
  - cbn [events_from]. split.
    + intros H. destruct (header_row raw) eqn:Hh.
      * apply IH in H as (pre & r & post & -> & Hr).
        exists (raw :: pre), r, post. split; [reflexivity |].
        rewrite count_headers_cons, Hh.
        now replace (sid + (1 + count_headers pre))%Z
          with (sid + 1 + count_headers pre)%Z by lia.
      * destruct (row_event sid raw) as [e0 |] eqn:He.
        -- destruct H as [<- | H].
           ++ exists [], raw, rows. split; [reflexivity |].
              unfold count_headers. simpl. now rewrite Z.add_0_r.
           ++ apply IH in H as (pre & r & post & -> & Hr).
              exists (raw :: pre), r, post. split; [reflexivity |].
              now rewrite count_headers_cons, Hh.
        -- apply IH in H as (pre & r & post & -> & Hr).
           exists (raw :: pre), r, post. split; [reflexivity |].
           now rewrite count_headers_cons, Hh.
    + intros (pre & r & post & Heq & Hr).
      destruct pre as [| p pre]; simpl in Heq; inversion Heq; subst.
      * unfold count_headers in Hr. simpl in Hr. rewrite Z.add_0_r in Hr.
        destruct (header_row r) eqn:Hh.
        -- rewrite (row_event_header _ _ Hh) in Hr. discriminate.
        -- rewrite Hr. now left.
      * rewrite count_headers_cons in Hr.
        assert (Hin : In e (events_from
                              (sid + (if header_row p then 1 else 0))%Z
                              (pre ++ r :: post))).
        { apply IH. exists pre, r, post. split; [reflexivity |].
          now rewrite <- Z.add_assoc. }
        destruct (header_row p).
        -- exact Hin.
        -- rewrite Z.add_0_r in Hin.
           destruct (row_event sid p); [now right | exact Hin].
Qed.

Lemma parse_stk_csv_In rows e :
  In e (parse_stk_csv rows) <->
  exists pre raw post,
    rows = pre ++ raw :: post /\
    row_event (count_headers pre - 1)%Z raw = Some e.
Proof.
  rewrite parse_stk_csv_events, events_from_In.
  split; intros (pre & raw & post & H1 & H2); exists pre, raw, post;
    (split; [exact H1 |]);
    now replace (count_headers pre - 1)%Z with (-1 + count_headers pre)%Z
      in * by lia.
Qed.

(** What [row_event] says about the fields of the pass. *)
Lemma row_event_fields sid raw e :
  row_event sid raw = Some e ->
  data_row raw = true /\
  exists n d t1 t2,
    int_of_str (cell raw 0) = Some n /\
    float_of_str (strip_quotes (cell raw 3)) = Some d /\
    strptime (strip_quotes (cell raw 1)) = Some t1 /\
    strptime (strip_quotes (cell raw 2)) = Some t2 /\
    e = mkPass sid n (strip_quotes (cell raw 1)) (strip_quotes (cell raw 2))
               (isoformat t1) (isoformat t2) d (timestamp t1) (timestamp t2).
Proof.
  unfold row_event, parse_data_row, cell.
  destruct (data_row raw); [| discriminate].
  intros H. split; [reflexivity |].
  destruct (int_of_str _) as [n |]; [| discriminate].
  destruct (float_of_str _) as [d |]; [| discriminate].
  destruct (strptime (strip_quotes (nth 1 _ _))) as [t1 |]; [| discriminate].
  destruct (strptime (strip_quotes (nth 2 _ _))) as [t2 |]; [| discriminate].
  simpl in H. inversion H. exists n, d, t1, t2. repeat split.
Qed.

End ParserFacts.

Section ParserClaims.
Context {B : PyBuiltins}.



(** C7 (amended): the satellite index of an emitted pass is the number
    of header rows before its data row, minus one.  It is never below
    -1; it is 0 or more exactly when some header row precedes the data
    row, and -1 for a data row before the first header. *)
Theorem satellite_id_counts_headers (rows : list (list string)) (e : pass) :
  In e (parse_stk_csv rows) ->
  exists pre raw post,
    rows = pre ++ raw :: post /\
    row_event (satellite_id e) raw = Some e /\
    satellite_id e = (count_headers pre - 1)%Z /\
    (-1 <= satellite_id e)%Z /\
    ((0 <= satellite_id e)%Z <-> exists h, In h pre /\ header_row h = true).
Proof.
  intros Hin.
  apply parse_stk_csv_In in Hin as (pre & raw & post & -> & Hr).
  pose proof (row_event_fields _ _ _ Hr) as (_ & n & d & t1 & t2 & _ & _ & _ & _ & He).
  assert (Hsid : satellite_id e = (count_headers pre - 1)%Z) by (now subst e).
  exists pre, raw, post. rewrite Hsid.
  split; [reflexivity |]. split; [exact Hr |]. split; [reflexivity |].
  pose proof (count_headers_nonneg pre) as Hnn.
  split; [lia |].
  unfold count_headers in *.
  destruct (List.filter header_row pre) as [| h hs] eqn:Hf.
  - split; [simpl; lia |].
    intros (h & Hh & Hhdr).
    assert (Hc : In h (List.filter header_row pre))
      by (apply List.filter_In; now split).
    rewrite Hf in Hc. destruct Hc.
  - split; [intros _ | simpl length; lia].
    exists h. apply List.filter_In. rewrite Hf. now left.
Qed.

Lemma clean_row_length raw : length (clean_row raw) = surviving_cells raw.
Proof. unfold clean_row, surviving_cells. apply length_map. Qed.

(** C8 (amended): a row with fewer than four cells that are not empty
    once stripped of whitespace changes nothing: the file with the row
    and the file without it give the same sequence of passes. *)
Theorem short_row_ignored (pre post : list (list string)) (raw : list string) :
  (surviving_cells raw < 4)%nat ->
  parse_stk_csv (pre ++ raw :: post) = parse_stk_csv (pre ++ post).
Proof.
  intros Hshort. unfold parse_stk_csv, scan_rows.
  rewrite !fold_left_app. cbn [fold_left].
  replace (scan_row (fold_left scan_row pre ([], (-1)%Z)) raw)
    with (fold_left scan_row pre ([], (-1)%Z)); [reflexivity |].
  destruct (fold_left scan_row pre ([], (-1)%Z)) as [passes sid].
  unfold scan_row. rewrite clean_row_length.
  apply Nat.ltb_lt in Hshort. now rewrite Hshort.
Qed.

End ParserClaims.


(** C7, as stated, fails: a data row before any header row is emitted with
    the satellite index -1. *)
Lemma satellite_id_negative_before_header :
  exists e,
    In e (parse_stk_csv (B := Ref.builtins) [pass_cells; header_cells; pass_cells]) /\
    (satellite_id e < 0)%Z.
Proof.
  eexists. split; [vm_compute; left; reflexivity |].
  vm_compute. reflexivity.
Qed.

Lemma satellite_id_counts_headers_witness :
  let e := hd early_pass
              (parse_stk_csv (B := Ref.builtins) [header_cells; pass_cells]) in
  exists pre raw post,
    [header_cells; pass_cells] = pre ++ raw :: post /\
    row_event (B := Ref.builtins) (satellite_id e) raw = Some e /\
    satellite_id e = (count_headers pre - 1)%Z /\
    (-1 <= satellite_id e)%Z /\
    ((0 <= satellite_id e)%Z <-> exists h, In h pre /\ header_row h = true).
Proof.
  apply (satellite_id_counts_headers (B := Ref.builtins)).
  vm_compute. left. reflexivity.
Defined.

(** C8, as stated, fails: a header row whose last two cells hold only a
    double quote has two cells that are not empty after whitespace and
    quote cleaning, yet it opens a satellite block, and the pass after it
    gets another satellite index. *)
Lemma quoted_header_still_counts :
  (cleaned_nonempty_cells quoted_header_cells < 4)%nat /\
  parse_stk_csv (B := Ref.builtins) [quoted_header_cells; pass_cells]
  <> parse_stk_csv (B := Ref.builtins) [pass_cells].
Proof.
  split; [vm_compute; lia |].
  vm_compute. discriminate.
Qed.

Lemma short_row_ignored_witness :
  parse_stk_csv (B := Ref.builtins)
                ([header_cells] ++ ["Access"; "Start Time"]%string :: [pass_cells])
  = parse_stk_csv (B := Ref.builtins) ([header_cells] ++ [pass_cells]).
Proof.
  apply (short_row_ignored (B := Ref.builtins)).
  vm_compute. lia.
Defined.

(** ** Ship-transit files *)

Lemma to_int_not_nil (n : Z) :
  Z.to_int n <> Decimal.Pos Decimal.Nil /\ Z.to_int n <> Decimal.Neg Decimal.Nil.
Proof.
  destruct n as [| p | p]; simpl; split; try discriminate;
    intros H; inversion H as [H1];
    exact (DecimalPos.Unsigned.to_uint_nonnil p H1).
Qed.

Lemma str_of_Z_inj (n m : Z) : str_of_Z n = str_of_Z m -> n = m.
Proof.
  unfold str_of_Z. intros H.
  apply DecimalZ.to_int_inj.
  destruct (to_int_not_nil n) as [Hn1 Hn2], (to_int_not_nil m) as [Hm1 Hm2].
  pose proof (NilZero.isi _ Hn1 Hn2) as En.
  pose proof (NilZero.isi _ Hm1 Hm2) as Em.
  rewrite H in En. congruence.
Qed.

Section ShipEezFacts.
Context {B : PyBuiltins}.
Variable fs : string -> list (list string).


Lemma store_ship_heap eez ref len st n :
  heap (store_ship eez ref len st n) = heap st.
Proof. reflexivity. Qed.






End ShipEezFacts.


(** ** Fusion benefits *)








Lemma compute_fusion_benefits_lookup (access_data : list access_row) (size : Z) :
  In size [6; 12; 32]%Z ->
  compute_fusion_benefits access_data !! constellation_key size
  = fusion_entry access_data size.
Proof.
  unfold compute_fusion_benefits. cbn [foldl].
  change (constellation_key 6) with "constellation_6"%string.
  change (constellation_key 12) with "constellation_12"%string.
  change (constellation_key 32) with "constellation_32"%string.
  intros [<- | [<- | [<- | []]]];
    [change (constellation_key 6) with "constellation_6"%string
    |change (constellation_key 12) with "constellation_12"%string
    |change (constellation_key 32) with "constellation_32"%string];
    destruct (fusion_entry access_data 6), (fusion_entry access_data 12),
             (fusion_entry access_data 32);
    repeat first [ rewrite lookup_insert_eq
                 | rewrite lookup_insert_ne by discriminate
                 | rewrite lookup_empty ];
    reflexivity.
Qed.






(** ** The model on the scenarios of the specification *)

(** Two passes, 00:00:00 to 00:10:00 and 01:00:00 to 01:05:00: the coverage
    is 900 / 86400 * 100 percent and the one revisit gap is 3000 seconds,
    that is 50 minutes. *)
Example two_pass_scenario :
  let passes := [span_pass 3600 3900; span_pass 0 600] in
  EezMetrics.compute_coverage_percent passes == 900 / 86400 * 100 /\
  xeq (rv_min (EezMetrics.compute_revisit_times passes)) (Fin 50) /\
  xeq (rv_mean (EezMetrics.compute_revisit_times passes)) (Fin 50) /\
  xeq (rv_median (EezMetrics.compute_revisit_times passes)) (Fin 50) /\
  xeq (rv_max (EezMetrics.compute_revisit_times passes)) (Fin 50) /\
  rv_count (EezMetrics.compute_revisit_times passes) = Some 1%Z /\
  xeq (rv_min (Metrics.compute_revisit_times passes)) (Fin 3000).
Proof. vm_compute. repeat split. Qed.

(** An empty bucket. *)
Example empty_bucket_scenario :
  EezMetrics.compute_detection_latency [] = PInf /\
  EezMetrics.compute_coverage_percent [] == 0 /\
  rv_count (EezMetrics.compute_revisit_times []) = Some 0%Z /\
  Metrics.compute_fusion_windows [] [span_pass 0 1] = mkFusionStats 0 0 0 0.
Proof. vm_compute. repeat split. Qed.

(** A file of two satellite blocks with a statistics row in between. *)
Example two_block_file :
  map (fun p => (satellite_id p, pass_num p, duration_sec p))
      (parse_stk_csv (B := Ref.builtins)
         [header_cells; pass_cells;
          ["Min Duration"; "1"; "1 Jan 2026 00:10:00.000";
           "1 Jan 2026 00:15:00.000"; "300.000"]%string;
          ["Statistics"]%string;
          header_cells; pass_cells])
  = [(0%Z, 1%Z, 300.000); (1%Z, 1%Z, 300.000)].
Proof. vm_compute. reflexivity. Qed.

(** The two file names of the ship-transit family. *)
Example ship_file_names :
  classify (B := Ref.builtins) "EEZ_West-Ship1_3_Access.csv"
  = Some (Some ("West"%string, [1; 3]%Z)) /\
  classify (B := Ref.builtins) "EEZ_East-Ship2_Access.csv"
  = Some (Some ("East"%string, [2]%Z)) /\
  classify (B := Ref.builtins) "Port_Mumbai-Walker6_Access.csv" = None.
Proof. vm_compute. repeat split. Qed.

(** * Further properties of the code *)

(** ** The parser: composition, order and tolerance *)

Section ParserMore.
Context {B : PyBuiltins}.

Lemma parse_data_row_offset (sid k : Z) (row : list string) :
  parse_data_row (sid + k) row
  = with_satellite_offset k <$> parse_data_row sid row.
Proof.
  unfold parse_data_row.
  destruct (int_of_str _); [| reflexivity]. cbn.
  destruct (float_of_str _); [| reflexivity]. cbn.
  destruct (strptime (strip_quotes (nth 1 _ _))); [| reflexivity]. cbn.
  destruct (strptime (strip_quotes (nth 2 _ _))); reflexivity.
Qed.

Lemma row_event_offset (sid k : Z) (raw : list string) :
  row_event (sid + k) raw = with_satellite_offset k <$> row_event sid raw.
Proof.
  unfold row_event. destruct (data_row raw); [| reflexivity].
  apply parse_data_row_offset.
Qed.

Lemma events_from_offset (k : Z) (rows : list (list string)) : forall sid,
  events_from (sid + k) rows
  = map (with_satellite_offset k) (events_from sid rows).
Proof.
  induction rows as [| raw rows IH]; intros sid; [reflexivity |].
  cbn [events_from]. destruct (header_row raw).
  - replace (sid + k + 1)%Z with (sid + 1 + k)%Z by lia. apply IH.
  - rewrite row_event_offset.
    destruct (row_event sid raw); cbn; now rewrite IH.
Qed.

Lemma events_from_app (rows1 rows2 : list (list string)) : forall sid,
  events_from sid (rows1 ++ rows2)
  = events_from sid rows1 ++ events_from (sid + count_headers rows1) rows2.
Proof.
  induction rows1 as [| raw rows1 IH]; intros sid.
  - cbn. unfold count_headers. cbn. now rewrite Z.add_0_r.
  - cbn [app events_from]. rewrite count_headers_cons.
    destruct (header_row raw).
    + rewrite IH. do 2 f_equal. lia.
    + destruct (row_event sid raw); rewrite IH; cbn; do 2 f_equal; lia.
Qed.

(** X1: parsing the concatenation of two runs of rows gives the passes of
    the first run followed by the passes of the second run, with the
    satellite indices of the latter moved up by the number of header rows
    of the first run. *)
Theorem parse_stk_csv_app (rows1 rows2 : list (list string)) :
  parse_stk_csv (rows1 ++ rows2)
  = parse_stk_csv rows1
    ++ map (with_satellite_offset (count_headers rows1)) (parse_stk_csv rows2).
Proof.
  rewrite !parse_stk_csv_events, events_from_app, events_from_offset.
  reflexivity.
Qed.

Lemma events_from_bounds (rows : list (list string)) : forall sid e,
  In e (events_from sid rows) ->
  (sid <= satellite_id e <= sid + count_headers rows)%Z.
Proof.
  intros sid e H. apply events_from_In in H as (pre & raw & post & -> & Hr).
  apply row_event_fields in Hr as (_ & n & d & t1 & t2 & _ & _ & _ & _ & ->).
  cbn. rewrite count_headers_app.
  pose proof (count_headers_nonneg pre).
  pose proof (count_headers_nonneg (raw :: post)). lia.
Qed.

Lemma events_from_sorted (rows : list (list string)) : forall sid,
  StronglySorted (fun a b => (satellite_id a <= satellite_id b)%Z)
                 (events_from sid rows).
Proof.
  induction rows as [| raw rows IH]; intros sid; [constructor |].
  cbn [events_from]. destruct (header_row raw); [apply IH |].
  destruct (row_event sid raw) as [e |] eqn:He; [| apply IH].
  constructor; [apply IH |].
  apply row_event_fields in He as (_ & n & d & t1 & t2 & _ & _ & _ & _ & ->).
  apply List.Forall_forall. intros x Hx. apply events_from_bounds in Hx. cbn. lia.
Qed.

(** X2: the passes come out in the order of the satellite blocks: the
    satellite indices never decrease along the output, and none exceeds
    the number of header rows of the file minus one. *)
Theorem satellite_ids_ascend (rows : list (list string)) :
  StronglySorted (fun a b => (satellite_id a <= satellite_id b)%Z)
                 (parse_stk_csv rows) /\
  Forall (fun e => (satellite_id e <= count_headers rows - 1)%Z)
         (parse_stk_csv rows).
Proof.
  rewrite parse_stk_csv_events. split; [apply events_from_sorted |].
  apply List.Forall_forall. intros e He. apply events_from_bounds in He. lia.
Qed.

Lemma events_from_length (rows : list (list string)) : forall sid,
  (Z.of_nat (length (events_from sid rows)) + count_headers rows
   <= Z.of_nat (length rows))%Z.
Proof.
  induction rows as [| raw rows IH]; intros sid.
  - unfold count_headers. simpl. lia.
  - cbn [events_from]. rewrite count_headers_cons.
    destruct (header_row raw).
    + specialize (IH (sid + 1)%Z). simpl length. lia.
    + destruct (row_event sid raw); specialize (IH sid); simpl length; lia.
Qed.

(** X3: a row gives at most one pass and a header row gives none: the
    number of passes plus the number of header rows is at most the number
    of rows. *)
Theorem passes_bounded_by_rows (rows : list (list string)) :
  (Z.of_nat (length (parse_stk_csv rows)) + count_headers rows
   <= Z.of_nat (length rows))%Z.
Proof. rewrite parse_stk_csv_events. apply events_from_length. Qed.

Lemma stat_label_not_header (raw : list string) :
  startswith_any (cell raw 0) STAT_LABELS = true -> header_row raw = false.
Proof.
  unfold header_row, is_header, cell. intros H.
  destruct (String.eqb_spec (nth 0 (clean_row raw) EmptyString) "Access")
    as [E | _]; [| reflexivity].
  rewrite E in H. vm_compute in H. discriminate.
Qed.

Lemma row_event_none_ignored (pre post : list (list string)) raw :
  header_row raw = false ->
  (forall sid, row_event sid raw = None) ->
  parse_stk_csv (pre ++ raw :: post) = parse_stk_csv (pre ++ post).
Proof.
  intros Hh Hnone. unfold parse_stk_csv, scan_rows.
  rewrite !fold_left_app. cbn [fold_left].
  rewrite scan_row_cases, Hh, Hnone. reflexivity.
Qed.

(** X4: a row that is not a header and that starts with a statistics
    label, or whose first cell is no integer, whose fourth cell is no
    number or whose second or third cell is no timestamp, is skipped: the
    file with the row and the file without it give the same passes. *)
Theorem unreadable_row_ignored (pre post : list (list string)) (raw : list string) :
  header_row raw = false ->
  startswith_any (cell raw 0) STAT_LABELS = true \/
  int_of_str (cell raw 0) = None \/
  float_of_str (strip_quotes (cell raw 3)) = None \/
  strptime (strip_quotes (cell raw 1)) = None \/
  strptime (strip_quotes (cell raw 2)) = None ->
  parse_stk_csv (pre ++ raw :: post) = parse_stk_csv (pre ++ post).
Proof.
  intros Hh Hbad. apply row_event_none_ignored; [exact Hh |].
  intros sid. unfold row_event, data_row, parse_data_row.
  fold (cell raw 0) (cell raw 1) (cell raw 2) (cell raw 3).
  destruct Hbad as [H | [H | [H | [H | H]]]].
  - rewrite H. now rewrite andb_false_r.
  - destruct (_ && _); [| reflexivity]. now rewrite H.
  - destruct (_ && _); [| reflexivity].
    destruct (int_of_str _); [| reflexivity]. cbn. now rewrite H.
  - destruct (_ && _); [| reflexivity].
    destruct (int_of_str _); [| reflexivity]. cbn.
    destruct (float_of_str _); [| reflexivity]. cbn. now rewrite H.
  - destruct (_ && _); [| reflexivity].
    destruct (int_of_str _); [| reflexivity]. cbn.
    destruct (float_of_str _); [| reflexivity]. cbn.
    destruct (strptime (strip_quotes (cell raw 1))); [| reflexivity]. cbn.
    now rewrite H.
Qed.

End ParserMore.

Lemma unreadable_row_ignored_witness :
  parse_stk_csv (B := Ref.builtins)
    ([header_cells; pass_cells]
     ++ ["Mean Duration"; "x"; "y"; "300.000"]%string :: [pass_cells])
  = parse_stk_csv (B := Ref.builtins)
      ([header_cells; pass_cells] ++ [pass_cells]).
Proof.
  apply (unreadable_row_ignored (B := Ref.builtins)).
  - reflexivity.
  - left. reflexivity.
Defined.

(** ** Stripping *)

Lemma lstrip_with_head f s : head_kept f (lstrip_with f s).
Proof.
  induction s as [| c s IH]; simpl; [exact I |].
  destruct (f c) eqn:E; [exact IH | exact E].
Qed.

Lemma lstrip_with_fixed f s : head_kept f s -> lstrip_with f s = s.
Proof. destruct s as [| c s]; simpl; [reflexivity | now intros ->]. Qed.

Lemma rstrip_with_head f s : head_kept f s -> head_kept f (rstrip_with f s).
Proof.
  destruct s as [| c s]; simpl; [trivial |]. intros Hc.
  destruct (rstrip_with f s); simpl; [| exact Hc].
  rewrite Hc. exact Hc.
Qed.

Lemma rstrip_with_idem f s : rstrip_with f (rstrip_with f s) = rstrip_with f s.
Proof.
  induction s as [| c s IH]; simpl; [reflexivity |].
  destruct (rstrip_with f s) as [| d r] eqn:E.
  - destruct (f c) eqn:Ec; simpl; [reflexivity |]. now rewrite Ec.
  - cbn [rstrip_with] in *. now rewrite IH.
Qed.

Lemma strip_with_idem f s :
  rstrip_with f (lstrip_with f (rstrip_with f (lstrip_with f s)))
  = rstrip_with f (lstrip_with f s).
Proof.
  rewrite (lstrip_with_fixed f (rstrip_with f (lstrip_with f s))).
  - apply rstrip_with_idem.
  - apply rstrip_with_head, lstrip_with_head.
Qed.

Lemma strip_quotes_idem s : strip_quotes (strip_quotes s) = strip_quotes s.
Proof. apply strip_with_idem. Qed.

Lemma py_strip_idem s : py_strip (py_strip s) = py_strip s.
Proof. apply strip_with_idem. Qed.

Lemma cell_stripped (raw : list string) (i : nat) :
  strip_quotes (cell raw i) = cell raw i.
Proof.
  unfold cell, clean_row.
  generalize (List.filter (fun c => nonempty (py_strip c)) raw). intros l.
  revert i. induction l as [| c l IH]; intros [| i]; simpl;
    try reflexivity; [apply strip_quotes_idem | apply IH].
Qed.

Section ParserStrings.
Context {B : PyBuiltins}.

(** X5: stripping is idempotent, so the second quote strip that the parser
    applies to the time cells changes nothing: the [start_time_str] and
    [stop_time_str] of a pass are the second and third cleaned cells of
    its row, and they carry no double quote at either end. *)
Theorem time_strings_are_cleaned_cells (rows : list (list string)) (e : pass) :
  In e (parse_stk_csv rows) ->
  exists raw,
    In raw rows /\
    start_time_str e = cell raw 1 /\ stop_time_str e = cell raw 2 /\
    strip_quotes (start_time_str e) = start_time_str e /\
    strip_quotes (stop_time_str e) = stop_time_str e.
Proof.
  intros H. apply parse_stk_csv_In in H as (pre & raw & post & -> & Hr).
  apply row_event_fields in Hr as (_ & n & d & t1 & t2 & _ & _ & _ & _ & ->).
  exists raw. cbn [start_time_str stop_time_str]. rewrite !cell_stripped.
  split; [apply in_or_app; right; now left |]. repeat split.
Qed.

End ParserStrings.

Lemma time_strings_are_cleaned_cells_witness :
  let e := hd early_pass
              (parse_stk_csv (B := Ref.builtins) [header_cells; pass_cells]) in
  exists raw,
    In raw [header_cells; pass_cells] /\
    start_time_str e = cell raw 1 /\ stop_time_str e = cell raw 2 /\
    strip_quotes (start_time_str e) = start_time_str e /\
    strip_quotes (stop_time_str e) = stop_time_str e.
Proof.
  apply (time_strings_are_cleaned_cells (B := Ref.builtins)).
  vm_compute. left. reflexivity.
Defined.

(** ** Detection latency: merging, order and growth *)

Lemma xeq_refl a : xeq a a.
Proof. destruct a; simpl; [reflexivity | exact I]. Qed.

Lemma xeq_trans a b c : xeq a b -> xeq b c -> xeq a c.
Proof.
  destruct a, b, c; simpl; try tauto. intros H1 H2. now rewrite H1.
Qed.

(** The least start of a non-empty list, as a value. *)
Lemma min_by_least {A} (key : A -> Q) x xs (m : Q) :
  (exists e, In e (x :: xs) /\ key e == m) ->
  (forall e, In e (x :: xs) -> m <= key e) ->
  key (min_by key x xs) == m.
Proof.
  intros (e & He & Hm) Hle.
  pose proof (min_by_le key xs x e He).
  pose proof (Hle _ (min_by_In key xs x)). lra.
Qed.

Lemma min_by_perm {A} (key : A -> Q) x xs y ys :
  Permutation (x :: xs) (y :: ys) ->
  key (min_by key x xs) == key (min_by key y ys).
Proof.
  intros P. apply min_by_least.
  - exists (min_by key y ys). split; [| reflexivity].
    apply (Permutation_in _ (Permutation_sym P)), min_by_In.
  - intros e He. apply min_by_le. apply (Permutation_in _ P He).
Qed.

Lemma min_by_app {A} (key : A -> Q) x xs y ys :
  key (min_by key x (xs ++ y :: ys))
  == Qmin (key (min_by key x xs)) (key (min_by key y ys)).
Proof.
  apply min_by_least.
  - destruct (Q.min_dec (key (min_by key x xs)) (key (min_by key y ys))) as [E | E].
    + exists (min_by key x xs). split; [| now rewrite E].
      pose proof (min_by_In key xs x) as H.
      change (x :: xs ++ y :: ys) with ((x :: xs) ++ y :: ys).
      apply in_or_app. now left.
    + exists (min_by key y ys). split; [| now rewrite E].
      change (x :: xs ++ y :: ys) with ((x :: xs) ++ y :: ys).
      apply in_or_app. right. apply min_by_In.
  - intros e He.
    change (x :: xs ++ y :: ys) with ((x :: xs) ++ y :: ys) in He.
    apply in_app_or in He as [He | He].
    + pose proof (min_by_le key xs x e He).
      pose proof (Q.le_min_l (key (min_by key x xs)) (key (min_by key y ys))). lra.
    + pose proof (min_by_le key ys y e He).
      pose proof (Q.le_min_r (key (min_by key x xs)) (key (min_by key y ys))). lra.
Qed.

Lemma py_xmin2_Fin a b : py_xmin2 (Fin a) (Fin b) = Fin (py_min2 a b).
Proof. unfold py_xmin2, py_min2. simpl. now destruct (Qltb b a). Qed.

(** X6: the fusion latency that [main] takes as the smaller of the SAR and
    the optical latency is the detection latency of the two lists of
    passes put together. *)
Theorem fusion_latency_is_merged_latency (sar_passes opt_passes : list pass) :
  xeq (py_xmin2 (Metrics.compute_detection_latency sar_passes)
                (Metrics.compute_detection_latency opt_passes))
      (Metrics.compute_detection_latency (sar_passes ++ opt_passes)) /\
  xeq (fusion_latency_min (detection_row_of sar_passes opt_passes))
      (xdiv_const (Metrics.compute_detection_latency (sar_passes ++ opt_passes))
                  60).
Proof.
  assert (H : xeq (py_xmin2 (Metrics.compute_detection_latency sar_passes)
                            (Metrics.compute_detection_latency opt_passes))
                  (Metrics.compute_detection_latency (sar_passes ++ opt_passes))).
  { destruct sar_passes as [| x xs], opt_passes as [| y ys]; cbn.
    - exact I.
    - reflexivity.
    - rewrite app_nil_r. reflexivity.
    - unfold Metrics.compute_detection_latency. cbn [app].
      rewrite py_xmin2_Fin. cbn. rewrite py_min2_spec, min_by_app.
      destruct (Q.min_dec (unix_start (min_by unix_start x xs))
                          (unix_start (min_by unix_start y ys))) as [E | E];
        rewrite E;
        [pose proof (Q.le_min_l (unix_start (min_by unix_start x xs) - SCENARIO_START)
                                (unix_start (min_by unix_start y ys) - SCENARIO_START))
        |pose proof (Q.le_min_r (unix_start (min_by unix_start x xs) - SCENARIO_START)
                                (unix_start (min_by unix_start y ys) - SCENARIO_START))];
        pose proof (Q.min_spec (unix_start (min_by unix_start x xs) - SCENARIO_START)
                               (unix_start (min_by unix_start y ys) - SCENARIO_START))
          as [[? ->] | [? ->]];
        pose proof (Q.min_spec (unix_start (min_by unix_start x xs))
                               (unix_start (min_by unix_start y ys)))
          as [[? ?] | [? ?]]; lra. }
  split; [exact H |].
  unfold detection_row_of. cbn [fusion_latency_min].
  destruct (py_xmin2 _ _), (Metrics.compute_detection_latency (_ ++ _));
    cbn in *; try tauto. now rewrite H.
Qed.

Lemma min_by_incl {A} (key : A -> Q) x xs y ys :
  incl (x :: xs) (y :: ys) ->
  key (min_by key y ys) <= key (min_by key x xs).
Proof.
  intros Hincl. apply min_by_le, Hincl, min_by_In.
Qed.

Lemma py_max2_mono a b c : b <= c -> py_max2 a b <= py_max2 a c.
Proof.
  intros H. rewrite !py_max2_spec.
  apply Q.max_le_compat_l. exact H.
Qed.

Lemma detection_latency_incl (A B : list pass) :
  incl A B ->
  xle (Metrics.compute_detection_latency B) (Metrics.compute_detection_latency A) /\
  xle (EezMetrics.compute_detection_latency B)
      (EezMetrics.compute_detection_latency A).
Proof.
  intros Hincl.
  destruct A as [| x xs].
  - destruct B; split; exact I.
  - destruct B as [| y ys]; [destruct (Hincl x (or_introl eq_refl)) |].
    pose proof (min_by_incl unix_start x xs y ys Hincl) as Hm.
    split; cbn.
    + lra.
    + apply py_max2_mono.
      unfold Qdiv. apply Qmult_le_compat_r; [lra | discriminate].
Qed.

Lemma xle_antisym a b : xle a b -> xle b a -> xeq a b.
Proof. destruct a, b; simpl; try tauto. intros; lra. Qed.

(** X7: more passes never delay detection: when every pass of [A] is among
    those of [B], the detection latency of [B] is at most that of [A], in
    both variants; and two lists with the same passes, in whatever order
    and number, have the same latency. *)
Theorem detection_latency_monotone (A B : list pass) :
  incl A B ->
  xle (Metrics.compute_detection_latency B) (Metrics.compute_detection_latency A) /\
  xle (EezMetrics.compute_detection_latency B)
      (EezMetrics.compute_detection_latency A) /\
  (incl B A ->
   xeq (Metrics.compute_detection_latency A) (Metrics.compute_detection_latency B) /\
   xeq (EezMetrics.compute_detection_latency A)
       (EezMetrics.compute_detection_latency B)).
Proof.
  intros HAB. destruct (detection_latency_incl A B HAB) as [H1 H2].
  split; [exact H1 |]. split; [exact H2 |].
  intros HBA. destruct (detection_latency_incl B A HBA) as [H3 H4].
  split; apply xle_antisym; assumption.
Qed.

Lemma detection_latency_monotone_witness :
  xle (Metrics.compute_detection_latency [noon_pass; early_pass])
      (Metrics.compute_detection_latency [noon_pass]).
Proof.
  refine (proj1 (detection_latency_monotone [noon_pass]
                   [noon_pass; early_pass] _)).
  intros x [<- | []]. now left.
Defined.

Lemma improvement_of_none s f :
  improvement_of s f = None <-> s = PInf /\ f = PInf.
Proof.
  destruct s as [s |], f as [f |]; cbn; try destruct (Qltb 0 f);
    split; try discriminate; try tauto; intros [H1 H2]; discriminate.
Qed.

Lemma improvement_of_range s f v :
  xle f s -> improvement_of s f = Some (Fin v) -> v == 0 \/ 1 <= v.
Proof.
  destruct s as [s |], f as [f |]; cbn; intros Hle.
  - case_Qltb; intros [= <-]; [right | left; reflexivity].
    apply Qle_shift_div_l; lra.
  - destruct Hle.
  - destruct (Qltb 0 f); intros [= <-]. left; reflexivity.
  - discriminate.
Qed.

Lemma py_xmin2_le_l a b : xle (py_xmin2 a b) a.
Proof.
  unfold py_xmin2. destruct a as [a |], b as [b |]; cbn; try exact I.
  - case_Qltb; cbn; lra.
  - lra.
Qed.

Lemma py_xmin2_inf a b : py_xmin2 a b = PInf <-> a = PInf /\ b = PInf.
Proof.
  unfold py_xmin2. destruct a as [a |], b as [b |]; cbn;
    try destruct (Qltb b a); split; try discriminate; try tauto;
    intros [H1 H2]; discriminate.
Qed.

Lemma detection_latency_inf (passes : list pass) :
  Metrics.compute_detection_latency passes = PInf <-> passes = [].
Proof. destruct passes; cbn; split; try discriminate; reflexivity. Qed.

(** X8: the improvement factor of a detection row is no number only when
    both lists of passes are empty; otherwise it is infinite, or 0, or a
    number that is at least 1. *)
Theorem improvement_factor_range (sar_passes opt_passes : list pass) :
  let row := detection_row_of sar_passes opt_passes in
  (improvement_factor row = None <-> sar_passes = [] /\ opt_passes = []) /\
  (forall v, improvement_factor row = Some (Fin v) -> v == 0 \/ 1 <= v).
Proof.
  unfold detection_row_of. cbn [improvement_factor]. split.
  - rewrite improvement_of_none, py_xmin2_inf, !detection_latency_inf. tauto.
  - intros v. apply improvement_of_range, py_xmin2_le_l.
Qed.

(** ** Revisit statistics: bounds *)

















(** ** Revisit statistics: the two variants *)












(** ** Revisit statistics: the order of the input *)

Lemma distinct_keys_perm {A} (key : A -> Q) (l1 l2 : list A) :
  Permutation l1 l2 -> distinct_keys key l1 -> distinct_keys key l2.
Proof.
  induction 1 as [| x l1 l2 P IH | x y l | l1 l2 l3 _ IH1 _ IH2]; intros D.
  - exact D.
  - inversion D as [| ? ? Hx Dl]; subst. constructor; [| now apply IH].
    intros y Hy. apply Hx. apply (Permutation_in _ (Permutation_sym P) Hy).
  - inversion D as [| ? ? Hy Dl]; subst.
    inversion Dl as [| ? ? Hx Dl']; subst.
    constructor; [| constructor].
    + intros z [<- | Hz]; [| now apply Hx].
      intros E. apply (Hy x (or_introl eq_refl)). now symmetry.
    + intros z Hz. apply Hy. now right.
    + exact Dl'.
  - auto.
Qed.

Lemma insert_by_strongly_sorted {A} (key : A -> Q) x (xs : list A) :
  StronglySorted (fun a b => key a <= key b) xs ->
  StronglySorted (fun a b => key a <= key b) (insert_by key x xs).
Proof.
  induction 1 as [| y ys Hs IH Hy]; simpl.
  - constructor; constructor.
  - case_Qltb.
    + constructor; [exact IH |].
      apply List.Forall_forall. intros z Hz.
      apply (Permutation_in _ (insert_by_perm key x ys)) in Hz.
      destruct Hz as [<- | Hz]; [lra |].
      rewrite List.Forall_forall in Hy. now apply Hy.
    + constructor; [now constructor |].
      constructor; [exact E |].
      rewrite List.Forall_forall in *. intros z Hz.
      specialize (Hy z Hz). lra.
Qed.

Lemma sorted_by_strongly_sorted {A} (key : A -> Q) (xs : list A) :
  StronglySorted (fun a b => key a <= key b) (sorted_by key xs).
Proof.
  induction xs as [| x xs IH]; simpl; [constructor |].
  now apply insert_by_strongly_sorted.
Qed.

Lemma strictly_sorted {A} (key : A -> Q) (l : list A) :
  StronglySorted (fun a b => key a <= key b) l ->
  distinct_keys key l ->
  StronglySorted (fun a b => key a < key b) l.
Proof.
  induction 1 as [| x l Hs IH Hx]; intros D; [constructor |].
  inversion D as [| ? ? Hd Dl]; subst.
  constructor; [now apply IH |].
  rewrite List.Forall_forall in *. intros y Hy.
  specialize (Hx y Hy). specialize (Hd y Hy).
  destruct (Qlt_le_dec (key x) (key y)) as [Hlt | Hge]; [exact Hlt |].
  exfalso. apply Hd. lra.
Qed.

(** Two strictly ascending lists with the same elements are equal. *)
Lemma strictly_sorted_unique {A} (key : A -> Q) (l1 : list A) : forall l2,
  StronglySorted (fun a b => key a < key b) l1 ->
  StronglySorted (fun a b => key a < key b) l2 ->
  Permutation l1 l2 -> l1 = l2.
Proof.
  induction l1 as [| a l1 IH]; intros l2 S1 S2 P.
  - apply Permutation_nil in P. now subst.
  - destruct l2 as [| b l2];
      [apply Permutation_sym, Permutation_nil in P; discriminate |].
    inversion S1 as [| ? ? S1' Ha]; subst.
    inversion S2 as [| ? ? S2' Hb]; subst.
    rewrite List.Forall_forall in Ha, Hb.
    assert (Hab : a = b).
    { pose proof (Permutation_in a P (or_introl eq_refl)) as [E | Ia];
        [now symmetry |].
      pose proof (Permutation_in b (Permutation_sym P) (or_introl eq_refl))
        as [E | Ib]; [exact E |].
      specialize (Ha b Ib). specialize (Hb a Ia). lra. }
    subst b. f_equal. apply IH; try assumption.
    now apply Permutation_cons_inv in P.
Qed.

Lemma sorted_by_order_free {A} (key : A -> Q) (l1 l2 : list A) :
  Permutation l1 l2 -> distinct_keys key l1 ->
  sorted_by key l1 = sorted_by key l2.
Proof.
  intros P D.
  assert (P' : Permutation (sorted_by key l1) (sorted_by key l2)).
  { rewrite !sorted_by_perm. exact P. }
  apply (strictly_sorted_unique key); [| | exact P'].
  - apply strictly_sorted; [apply sorted_by_strongly_sorted |].
    apply (distinct_keys_perm key l1); [| exact D].
    symmetry. apply sorted_by_perm.
  - apply strictly_sorted; [apply sorted_by_strongly_sorted |].
    apply (distinct_keys_perm key l1); [| exact D].
    rewrite P. symmetry. apply sorted_by_perm.
Qed.

(** X11: when no two passes start at the same time, the revisit statistics
    do not depend on the order of the input: a reordered list gives the
    same dictionary, in both variants.  With equal starts the order
    matters: of two passes that start together, the one listed first is
    taken as the earlier one. *)
Theorem revisit_order_free (passes shuffled : list pass) :
  Permutation passes shuffled ->
  distinct_keys unix_start passes ->
  Metrics.compute_revisit_times shuffled = Metrics.compute_revisit_times passes /\
  EezMetrics.compute_revisit_times shuffled
  = EezMetrics.compute_revisit_times passes /\
  Metrics.compute_revisit_times [span_pass 0 10; span_pass 0 100; span_pass 50 60]
  <> Metrics.compute_revisit_times
       [span_pass 0 100; span_pass 0 10; span_pass 50 60].
Proof.
  intros P D.
  unfold Metrics.compute_revisit_times, EezMetrics.compute_revisit_times.
  rewrite <- (Permutation_length P), <- (sorted_by_order_free _ _ _ P D).
  repeat split. vm_compute. discriminate.
Qed.

Lemma revisit_order_free_witness :
  Metrics.compute_revisit_times [span_pass 3600 3900; span_pass 0 600]
  = Metrics.compute_revisit_times [span_pass 0 600; span_pass 3600 3900].
Proof.
  refine (proj1 (revisit_order_free [span_pass 0 600; span_pass 3600 3900]
                   [span_pass 3600 3900; span_pass 0 600] _ _)).
  - apply perm_swap.
  - constructor; [| constructor; [intros y [] | constructor]].
    intros y [<- | []]. vm_compute. discriminate.
Defined.

(** ** Fusion windows: symmetry and bounds *)
















(** ** Delivery latency: bounds *)




(** ** Coverage: sums *)


(** ** Fusion benefits: the keys and the constant fields *)

Lemma select_In (access_data : list access_row) size sensor r :
  In r (select access_data size sensor) <->
  In r access_data /\ ar_constellation_size r = Some size /\
  ar_sensor_type r = sensor.
Proof.
  unfold select. rewrite List.filter_In, andb_true_iff, String.eqb_eq.
  destruct (ar_constellation_size r) as [s |].
  - rewrite Z.eqb_eq. split; intros (H1 & H2 & H3); repeat split; congruence.
  - split; [intros (_ & H & _) | intros (_ & H & _)]; discriminate.
Qed.

Lemma select_empty (access_data : list access_row) size sensor :
  (length (select access_data size sensor) =? 0)%nat = true <->
  ~ has_rows access_data size sensor.
Proof.
  rewrite Nat.eqb_eq. split.
  - intros H (r & Hr). apply select_In in Hr.
    destruct (select access_data size sensor); [destruct Hr | discriminate].
  - intros H. destruct (select access_data size sensor) as [| r l] eqn:E;
      [reflexivity |].
    exfalso. apply H. exists r. apply select_In. rewrite E. now left.
Qed.

Lemma fusion_entry_some (access_data : list access_row) size :
  is_Some (fusion_entry access_data size) <->
  has_rows access_data size "SAR" /\ has_rows access_data size "Optical".
Proof.
  unfold fusion_entry.
  destruct (length (select access_data size "SAR") =? 0)%nat eqn:E1.
  - cbn [orb]. apply select_empty in E1.
    split; [intros [x Hx]; discriminate | tauto].
  - destruct (length (select access_data size "Optical") =? 0)%nat eqn:E2.
    + cbn [orb]. apply select_empty in E2.
      split; [intros [x Hx]; discriminate | tauto].
    + cbn [orb]. split; [intros _ | intros _; eexists; reflexivity].
      split.
      * destruct (select access_data size "SAR") as [| r l] eqn:E;
          [discriminate |].
        exists r. apply select_In. rewrite E. now left.
      * destruct (select access_data size "Optical") as [| r l] eqn:E;
          [discriminate |].
        exists r. apply select_In. rewrite E. now left.
Qed.

Lemma compute_fusion_benefits_other (access_data : list access_row) (k : string) :
  (forall size, In size [6; 12; 32]%Z -> k <> constellation_key size) ->
  compute_fusion_benefits access_data !! k = None.
Proof.
  intros H. unfold compute_fusion_benefits. cbn [foldl].
  pose proof (H 6%Z ltac:(now left)) as H6.
  pose proof (H 12%Z ltac:(now right; left)) as H12.
  pose proof (H 32%Z ltac:(now right; right; left)) as H32.
  destruct (fusion_entry access_data 6), (fusion_entry access_data 12),
           (fusion_entry access_data 32);
    repeat first [ rewrite lookup_insert_ne by congruence
                 | rewrite lookup_empty ];
    reflexivity.
Qed.

Lemma key_cases (k : string) :
  (exists size, In size [6; 12; 32]%Z /\ k = constellation_key size) \/
  (forall size, In size [6; 12; 32]%Z -> k <> constellation_key size).
Proof.
  destruct (decide (k = constellation_key 6)) as [-> | H6];
    [left; exists 6%Z; split; [now left | reflexivity] |].
  destruct (decide (k = constellation_key 12)) as [-> | H12];
    [left; exists 12%Z; split; [now right; left | reflexivity] |].
  destruct (decide (k = constellation_key 32)) as [-> | H32];
    [left; exists 32%Z; split; [now right; right; left | reflexivity] |].
  right. intros size [<- | [<- | [<- | []]]]; assumption.
Qed.

(** X16: the dictionary of fusion benefits has an entry under a key exactly
    when the key is constellation_<size> for a size among 6, 12 and 32
    for which the data hold both SAR rows and optical rows; a size with
    one sensor missing, or any other size, gets no entry. *)
Theorem fusion_benefits_keys (access_data : list access_row) (k : string) :
  is_Some (compute_fusion_benefits access_data !! k) <->
  exists size,
    In size [6; 12; 32]%Z /\ k = constellation_key size /\
    has_rows access_data size "SAR" /\ has_rows access_data size "Optical".
Proof.
  destruct (key_cases k) as [(size & Hs & ->) | Hother].
  - rewrite (compute_fusion_benefits_lookup _ _ Hs), fusion_entry_some.
    split.
    + intros H. exists size. tauto.
    + intros (size' & Hs' & Hk & H).
      assert (size' = size); [| subst; exact H].
      unfold constellation_key in Hk.
      apply str_of_Z_inj. cbn in Hk. now inversion Hk.
  - rewrite (compute_fusion_benefits_other _ _ Hother). split.
    + intros [x Hx]. discriminate.
    + intros (size & Hs & Hk & _). exfalso. exact (Hother size Hs Hk).
Qed.

(** X17: every entry of the dictionary of fusion benefits sits under the
    key of its own constellation size, counts the SAR and the optical
    rows of that size, at least one each, and carries the latency
    improvement factor 0.8, whatever the data. *)
Theorem fusion_benefits_entry (access_data : list access_row)
    (k : string) (e : fusion_metrics) :
  compute_fusion_benefits access_data !! k = Some e ->
  In (constellation_size e) [6; 12; 32]%Z /\
  k = constellation_key (constellation_size e) /\
  latency_improvement_factor e == 0.8 /\
  sar_passes e
  = Z.of_nat (length (select access_data (constellation_size e) "SAR")) /\
  optical_passes e
  = Z.of_nat (length (select access_data (constellation_size e) "Optical")) /\
  (1 <= sar_passes e)%Z /\ (1 <= optical_passes e)%Z.
Proof.
  intros H.
  destruct (key_cases k) as [(size & Hs & ->) | Hother];
    [| rewrite (compute_fusion_benefits_other _ _ Hother) in H; discriminate].
  rewrite (compute_fusion_benefits_lookup _ _ Hs) in H.
  unfold fusion_entry in H.
  destruct (length (select access_data size "SAR") =? 0)%nat eqn:E1;
    [discriminate |].
  destruct (length (select access_data size "Optical") =? 0)%nat eqn:E2;
    [discriminate |].
  cbn [orb] in H. inversion H; subst e; clear H.
  cbn [constellation_size latency_improvement_factor sar_passes optical_passes].
  apply Nat.eqb_neq in E1, E2.
  split; [exact Hs |]. split; [reflexivity |].
  split; [| repeat split; lia].
  destruct Hs as [<- | [<- | [<- | []]]]; vm_compute; reflexivity.
Qed.

Lemma fusion_benefits_entry_witness :
  exists e,
    compute_fusion_benefits small_dataset !! "constellation_6"%string = Some e /\
    latency_improvement_factor e == 0.8.
Proof.
  assert (H : is_Some (compute_fusion_benefits small_dataset
                         !! "constellation_6"%string))
    by (vm_compute; eexists; reflexivity).
  destruct (compute_fusion_benefits small_dataset !! "constellation_6"%string)
    as [e |] eqn:E; [| destruct H; discriminate].
  exists e. split; [reflexivity |].
  exact (proj1 (proj2 (proj2 (fusion_benefits_entry small_dataset _ e E)))).
Defined.

(** ** Ship-transit file names *)

Lemma prefix_app (p s : string) :
  String.prefix p s = true <-> exists t, s = (p ++ t)%string.
Proof.
  revert s. induction p as [| c p IH]; intros s.
  - split; [intros _; exists s; reflexivity | intros _; now destruct s].
  - destruct s as [| d s]; cbn.
    + split; [discriminate | intros (t & H); discriminate].
    + destruct (Ascii.ascii_dec c d) as [-> | Hne].
      * rewrite IH. split; intros (t & H); exists t; [now rewrite H | now inversion H].
      * split; [discriminate | intros (t & H); inversion H; congruence].
Qed.





Lemma stake_sdrop (n : nat) (s : string) : (stake n s ++ sdrop n s)%string = s.
Proof.
  unfold stake. revert s. induction n as [| n IH]; intros s.
  - destruct s; reflexivity.
  - destruct s as [| c s]; [reflexivity |]. cbn [substring sdrop].
    change (String.append (String c (substring 0 n s)) (sdrop n s))
      with (String c (String.append (substring 0 n s) (sdrop n s))).
    now rewrite IH.
Qed.

Lemma stake_span (f : ascii -> bool) (s : string) : forall n,
  (n <= span_len f s)%nat -> all_chars f (stake n s) = true.
Proof.
  unfold stake. induction s as [| c s IH]; intros n Hn.
  - destruct n; reflexivity.
  - destruct n as [| n]; [reflexivity |]. cbn in *.
    destruct (f c) eqn:E; [| lia]. cbn. apply IH. lia.
Qed.

Lemma stake_nonempty (n : nat) (s : string) :
  (0 < n <= String.length s)%nat -> nonempty (stake n s) = true.
Proof.
  unfold stake. destruct n as [| n]; [lia |].
  destruct s as [| c s]; cbn; [lia | reflexivity].
Qed.

Lemma span_len_le (f : ascii -> bool) (s : string) :
  (span_len f s <= String.length s)%nat.
Proof. induction s as [| c s IH]; cbn; [lia |]. destruct (f c); lia. Qed.



Lemma backtrack_ship_shape (rest : string) : forall k g,
  (k <= span_len is_digit_or_underscore rest)%nat ->
  backtrack_ship rest k = Some g ->
  nonempty g = true /\ all_chars is_digit_or_underscore g = true /\
  exists t, rest = (g ++ "_Access" ++ t)%string.
Proof.
  induction k as [| k IH]; intros g Hk H; [discriminate |].
  cbn [backtrack_ship] in H.
  destruct (String.prefix "_Access" (sdrop (S k) rest)) eqn:E.
  - inversion H; subst g; clear H.
    pose proof (span_len_le is_digit_or_underscore rest).
    split; [apply stake_nonempty; lia |].
    split; [now apply stake_span |].
    apply prefix_app in E as (t & Ht). exists t.
    rewrite <- Ht. symmetry. apply stake_sdrop.
  - apply IH; [lia | exact H].
Qed.



(** ** Ship-transit files: [main] as a whole *)

Lemma split_on_chars (f : ascii -> bool) (sep : ascii) (s : string) :
  all_chars f s = true ->
  forall piece, In piece (split_on sep s) ->
    all_chars (fun c => f c && negb (Ascii.eqb c sep)) piece = true.
Proof.
  induction s as [| c s IH]; intros Hall piece Hin.
  - destruct Hin as [<- | []]. reflexivity.
  - cbn in Hall. apply andb_prop in Hall as [Hc Hs].
    specialize (IH Hs). cbn [split_on] in Hin.
    destruct (Ascii.eqb c sep) eqn:E.
    + destruct Hin as [<- | Hin]; [reflexivity | now apply IH].
    + destruct (split_on sep s) as [| w ws].
      * destruct Hin as [<- | []]. cbn. now rewrite Hc, E.
      * destruct Hin as [<- | Hin].
        -- cbn. rewrite Hc, E. cbn. apply IH. now left.
        -- apply IH. now right.
Qed.

Lemma all_chars_weaken (f g : ascii -> bool) (s : string) :
  (forall c, f c = true -> g c = true) ->
  all_chars f s = true -> all_chars g s = true.
Proof.
  intros H. induction s as [| c s IH]; [reflexivity |]. cbn.
  intros Hc. apply andb_prop in Hc as [H1 H2].
  now rewrite (H c H1), IH.
Qed.

Lemma ship_numbers_read {B : PyBuiltins} (g : string) :
  int_reads_digits B ->
  all_chars is_digit_or_underscore g = true ->
  is_Some (ship_numbers_of g).
Proof.
  intros Hint Hall. unfold ship_numbers_of.
  apply mapM_is_Some. apply Forall_forall. intros piece Hin.
  apply list_elem_of_In, List.filter_In in Hin as [Hin Hne].
  apply Hint. unfold digit_string. rewrite Hne. cbn.
  apply (all_chars_weaken
           (fun c => is_digit_or_underscore c && negb (Ascii.eqb c "_"))).
  - intros c Hc. apply andb_prop in Hc as [H1 H2].
    unfold is_digit_or_underscore in H1.
    destruct (Ascii.eqb c "_"); [discriminate |].
    now rewrite orb_false_r in H1.
  - now apply (split_on_chars _ _ g).
Qed.

Lemma search_ship_chars (filename g : string) :
  search_ship filename = Some g ->
  all_chars is_digit_or_underscore g = true.
Proof.
  induction filename as [| c s IH]; intros H; [discriminate |].
  cbn [search_ship] in H.
  destruct (String.prefix "Ship" (String c s)); [| now apply IH].
  destruct (backtrack_ship _ _) as [g' |] eqn:Eb; [| now apply IH].
  injection H as <-.
  now apply backtrack_ship_shape in Eb as (_ & Ha & _); [| lia].
Qed.

Section ShipEezMain.
Context {B : PyBuiltins}.
Variable fs : string -> list (list string).

Lemma stored_ships_total eez ref len ns : forall st,
  total_passes (foldl (store_ship eez ref len) st ns)
  = (total_passes st + len * Z.of_nat (length ns))%Z.
Proof.
  induction ns as [| n ns IH]; intros st; cbn [foldl length].
  - lia.
  - rewrite IH. cbn [store_ship total_passes]. lia.
Qed.

(** X19: what [main] does with one file, by what the name encodes.  A
    name that fits neither pattern leaves everything as it was; a name
    with a ship group that [int] rejects raises; for a name that encodes
    the ship numbers [ns], the running total of passes grows by the
    number of passes of the file once for each ship number, so a file
    shared by two ships is counted twice. *)
Theorem process_file_accounting (st : store) (filename : string) :
  match classify filename with
  | None => process_file fs st filename = Some st
  | Some None => process_file fs st filename = None
  | Some (Some (eez_name, ns)) =>
      exists st',
        process_file fs st filename = Some st' /\
        total_passes st'
        = (total_passes st
           + Z.of_nat (length (parse_stk_csv (fs filename)))
             * Z.of_nat (length ns))%Z
  end.
Proof.
  unfold classify, process_file.
  destruct (search_eez filename) as [eez |]; [| reflexivity].
  destruct (search_ship filename) as [ship_str |]; [| reflexivity].
  cbn. destruct (ship_numbers_of ship_str) as [ns |]; [| reflexivity].
  cbn. eexists. split; [reflexivity |].
  now rewrite stored_ships_total.
Qed.

Lemma process_file_runs (st : store) (filename : string) :
  int_reads_digits B -> is_Some (process_file fs st filename).
Proof.
  intros Hint. unfold process_file.
  destruct (search_eez filename) as [eez |]; [| eexists; reflexivity].
  destruct (search_ship filename) as [ship_str |] eqn:E;
    [| eexists; reflexivity].
  destruct (ship_numbers_read ship_str Hint (search_ship_chars _ _ E))
    as [ns ->].
  cbn. eexists. reflexivity.
Qed.

(** X20: when [int] reads every non-empty run of decimal digits, [main]
    runs to its end on every list of file names: no name makes the
    conversion of the ship numbers raise. *)
Theorem main_never_raises (csv_files : list string) :
  int_reads_digits B -> is_Some (main fs csv_files).
Proof.
  intros Hint. unfold main. generalize empty_store.
  induction csv_files as [| f rest IH]; intros st; [eexists; reflexivity |].
  cbn [process_files].
  destruct (process_file_runs st f Hint) as [st' ->]. cbn. apply IH.
Qed.

End ShipEezMain.

Lemma is_digit_facts (c : ascii) :
  is_digit c = true ->
  is_space c = false /\ Ascii.eqb c "_" = false /\
  Ascii.eqb c "+" = false /\ Ascii.eqb c "-" = false /\
  is_Some (Ref.digit_val c).
Proof.
  destruct c as [[] [] [] [] [] [] [] []]; cbn; intros H;
    try discriminate H; repeat split; eexists; reflexivity.
Qed.

Lemma rstrip_with_fixed (f : ascii -> bool) (s : string) :
  all_chars (fun c => negb (f c)) s = true -> rstrip_with f s = s.
Proof.
  induction s as [| c s IH]; [reflexivity |]. cbn. intros H.
  apply andb_prop in H as [Hc Hs]. rewrite (IH Hs).
  apply negb_true_iff in Hc. destruct s; [now rewrite Hc | reflexivity].
Qed.

Lemma digit_string_strip (s : string) :
  all_chars is_digit s = true -> py_strip s = s.
Proof.
  intros H. unfold py_strip.
  rewrite lstrip_with_fixed.
  - apply rstrip_with_fixed. revert H. apply all_chars_weaken.
    intros c Hc. apply negb_true_iff. now apply is_digit_facts.
  - destruct s as [| c s]; [exact I |]. cbn in *.
    apply andb_prop in H as [Hc _]. now apply is_digit_facts.
Qed.

Lemma int_digits_reads (s : string) : forall acc b,
  all_chars is_digit s = true -> nonempty s = true \/ b = true ->
  is_Some (Ref.int_digits s acc b).
Proof.
  induction s as [| c s IH]; intros acc b Hall Hb.
  - destruct Hb as [Hb | ->]; [discriminate | eexists; reflexivity].
  - cbn in Hall. apply andb_prop in Hall as [Hc Hs].
    destruct (is_digit_facts c Hc) as (_ & Hu & _ & _ & d & Hd).
    cbn [Ref.int_digits]. rewrite Hu, Hd. cbn. apply IH; auto.
Qed.

Lemma ref_int_reads_digits : int_reads_digits Ref.builtins.
Proof.
  intros s H. unfold digit_string in H. apply andb_prop in H as [Hne Hall].
  cbn [int_of_str Ref.builtins]. unfold Ref.int_of_str.
  rewrite (digit_string_strip s Hall).
  destruct s as [| c r]; [discriminate |].
  pose proof Hall as Hall'. cbn in Hall'. apply andb_prop in Hall' as [Hc _].
  destruct (is_digit_facts c Hc) as (_ & _ & Hp & Hm & _).
  assert (Hgoal : is_Some (Ref.int_digits (String c r) 0%Z false))
    by (apply int_digits_reads; [exact Hall | now left]).
  destruct c as [[] [] [] [] [] [] [] []]; cbn in Hp, Hm;
    try discriminate; exact Hgoal.
Qed.

Lemma main_never_raises_witness :
  is_Some (main (B := Ref.builtins) (fun _ => [header_cells; pass_cells])
             ["EEZ_West-Ship1_3_Access.csv"; "EEZ_East-Ship2_Access.csv";
              "notes.csv"]%string).
Proof.
  apply (main_never_raises (B := Ref.builtins)).
  exact ref_int_reads_digits.
Defined.

(** ** parse_stk_access.py: categories and buckets *)

Lemma assoc_get_In {V} (k : string) (items : list (string * V)) v :
  assoc_get k items = Some v -> In (k, v) items.
Proof.
  induction items as [| [k' v'] rest IH]; [discriminate |]. cbn.
  destruct (String.eqb_spec k k') as [-> | _].
  - intros [= ->]. now left.
  - intros H. right. now apply IH.
Qed.

Lemma category_mapping_scheme (filename : string) (cat : string * string * Z) :
  In (filename, cat) CATEGORY_MAPPING ->
  In cat KNOWN_CATEGORIES /\ filename = category_name cat.
Proof.
  intros H. unfold CATEGORY_MAPPING in H.
  repeat (destruct H as [H | H];
          [injection H as <- <-;
           split; [vm_compute; repeat first [left; reflexivity | right]
                  | reflexivity] |]).
  destruct H.
Qed.

Lemma known_category_mapped (cat : string * string * Z) :
  In cat KNOWN_CATEGORIES -> get_file_category (category_name cat) = Some cat.
Proof.
  intros H. vm_compute in H.
  repeat (destruct H as [<- | H]; [reflexivity |]). destruct H.
Qed.

(** X21: [get_file_category] knows exactly the names that the naming
    scheme gives the 24 categories (three ships with two sensors, two
    ground stations, three constellation sizes each): a name has a
    category just when it is the name of that category, so two different
    names never share a category and the constellation size is 6, 12 or
    32. *)
Theorem file_category_scheme (filename : string) (cat : string * string * Z) :
  get_file_category filename = Some cat <->
  In cat KNOWN_CATEGORIES /\ filename = category_name cat.
Proof.
  split.
  - intros H. apply category_mapping_scheme.
    now apply assoc_get_In.
  - intros [H ->]. now apply known_category_mapped.
Qed.

Lemma file_category_inj (f f' : string) cat :
  get_file_category f = Some cat -> get_file_category f' = Some cat -> f = f'.
Proof.
  intros H H'.
  apply assoc_get_In, category_mapping_scheme in H as [_ ->].
  apply assoc_get_In, category_mapping_scheme in H' as [_ ->]. reflexivity.
Qed.

Section AccessMainFacts.
Context {B : PyBuiltins}.
Variable fs : string -> list (list string).

Lemma access_file_lookup (st : access_store) (f t s : string) (c : Z) :
  lookup3 (access_file fs st f) t s c
  = if decide (get_file_category f = Some (t, s, c))
    then Some (parse_stk_csv (fs f))
    else lookup3 st t s c.
Proof.
  unfold access_file.
  destruct (get_file_category f) as [[[t' s'] c'] |];
    [| destruct (decide _); [discriminate | reflexivity]].
  unfold lookup3. cbn [as_results].
  destruct (decide (t = t')) as [-> | Ht].
  - rewrite lookup_insert_eq. cbn.
    destruct (decide (s = s')) as [-> | Hs].
    + rewrite lookup_insert_eq. cbn.
      destruct (decide (c = c')) as [-> | Hc].
      * rewrite lookup_insert_eq.
        destruct (decide _) as [_ | Hn]; [reflexivity | congruence].
      * rewrite lookup_insert_ne by congruence.
        destruct (decide _) as [Hn | _]; [congruence |].
        destruct (as_results st !! t') as [m |]; cbn; [| apply lookup_empty].
        destruct (m !! s'); cbn; [reflexivity | apply lookup_empty].
    + rewrite lookup_insert_ne by congruence.
      destruct (decide _) as [Hn | _]; [congruence |].
      destruct (as_results st !! t') as [m |]; cbn;
        [reflexivity | now rewrite lookup_empty].
  - rewrite lookup_insert_ne by congruence.
    destruct (decide _) as [Hn | _]; [congruence | reflexivity].
Qed.

Lemma access_files_miss (files : list string) (t s : string) (c : Z) :
  forall st,
  (forall f, In f files -> get_file_category f <> Some (t, s, c)) ->
  lookup3 (fold_left (access_file fs) files st) t s c = lookup3 st t s c.
Proof.
  induction files as [| g rest IH]; intros st H; [reflexivity |].
  cbn [fold_left]. rewrite IH by (intros f Hf; apply H; now right).
  rewrite access_file_lookup.
  destruct (decide _) as [E | _]; [| reflexivity].
  exfalso. exact (H g (or_introl eq_refl) E).
Qed.

Lemma access_files_hit (files : list string) (f t s : string) (c : Z) :
  forall st,
  In f files -> get_file_category f = Some (t, s, c) ->
  lookup3 (fold_left (access_file fs) files st) t s c
  = Some (parse_stk_csv (fs f)).
Proof.
  induction files as [| g rest IH]; intros st Hin Hcat; [destruct Hin |].
  cbn [fold_left].
  destruct (in_dec string_dec f rest) as [Hr | Hr]; [now apply IH |].
  destruct Hin as [-> | Hin]; [| contradiction].
  rewrite access_files_miss.
  - rewrite access_file_lookup.
    destruct (decide _) as [_ | Hn]; [reflexivity | contradiction].
  - intros f' Hf' Hcat'. apply Hr.
    now rewrite (file_category_inj f f' _ Hcat Hcat').
Qed.

Lemma access_files_counts (files : list string) : forall st,
  as_processed (fold_left (access_file fs) files st)
  = (as_processed st + Z.of_nat (length (List.filter recognised files)))%Z /\
  as_total_passes (fold_left (access_file fs) files st)
  = (as_total_passes st
     + Z.of_nat (length (flat_map (fun f => parse_stk_csv (fs f))
                                  (List.filter recognised files))))%Z.
Proof.
  induction files as [| g rest IH]; intros st.
  - cbn. split; lia.
  - cbn [fold_left List.filter]. destruct (IH (access_file fs st g)) as [-> ->].
    unfold access_file, recognised.
    destruct (get_file_category g) as [[[t s] c] |].
    + cbn [as_processed as_total_passes length flat_map].
      rewrite length_app. split; lia.
    + split; reflexivity.
Qed.

(** X22: after [main], the bucket of a category holds the passes of the
    file of that category when the file is among those read, whatever
    else was read before or after it, and no bucket exists for a category
    none of whose files was read; the number of files processed is the
    number of recognised names and the total of passes is the number of
    passes of the recognised files. *)
Theorem access_main_buckets (csv_files : list string) (t s : string) (c : Z) :
  (forall f, In f csv_files -> get_file_category f = Some (t, s, c) ->
     lookup3 (access_main fs csv_files) t s c = Some (parse_stk_csv (fs f))) /\
  ((forall f, In f csv_files -> get_file_category f <> Some (t, s, c)) ->
     lookup3 (access_main fs csv_files) t s c = None) /\
  as_processed (access_main fs csv_files)
  = Z.of_nat (length (List.filter recognised csv_files)) /\
  as_total_passes (access_main fs csv_files)
  = Z.of_nat (length (flat_map (fun f => parse_stk_csv (fs f))
                               (List.filter recognised csv_files))).
Proof.
  unfold access_main. split; [| split].
  - intros f Hin Hcat. now apply access_files_hit.
  - intros H. rewrite access_files_miss by exact H. reflexivity.
  - destruct (access_files_counts csv_files empty_access_store) as [-> ->].
    cbn. split; reflexivity.
Qed.

End AccessMainFacts.

Lemma access_main_buckets_witness :
  lookup3 (access_main (B := Ref.builtins)
             (fun _ => [header_cells; pass_cells])
             ["Ship1-Constellation6_SAR_Access.csv"; "notes.csv";
              "GS_Ahmedabad-Walker12_Access.csv"]%string)
          "Ship1" "SAR" 6
  = Some (parse_stk_csv (B := Ref.builtins) [header_cells; pass_cells]).
Proof.
  refine (proj1 (access_main_buckets (B := Ref.builtins)
                   (fun _ => [header_cells; pass_cells]) _ "Ship1" "SAR" 6%Z)
                "Ship1-Constellation6_SAR_Access.csv"%string _ _).
  - now left.
  - reflexivity.
Defined.

(** ** pipeline.py: the mean revisit time *)








(** ** pipeline.py: the dictionary of coverage metrics *)

Lemma compute_coverage_metrics_lookup (access_data : list coverage_row) (size : Z) :
  In size [6; 12; 32]%Z ->
  compute_coverage_metrics access_data !! constellation_key size
  = coverage_entry access_data size.
Proof.
  unfold compute_coverage_metrics. cbn [foldl].
  change (constellation_key 6) with "constellation_6"%string.
  change (constellation_key 12) with "constellation_12"%string.
  change (constellation_key 32) with "constellation_32"%string.
  intros [<- | [<- | [<- | []]]];
    [change (constellation_key 6) with "constellation_6"%string
    |change (constellation_key 12) with "constellation_12"%string
    |change (constellation_key 32) with "constellation_32"%string];
    destruct (coverage_entry access_data 6), (coverage_entry access_data 12),
             (coverage_entry access_data 32);
    repeat first [ rewrite lookup_insert_eq
                 | rewrite lookup_insert_ne by discriminate
                 | rewrite lookup_empty ];
    reflexivity.
Qed.

Lemma compute_coverage_metrics_other (access_data : list coverage_row) (k : string) :
  (forall size, In size [6; 12; 32]%Z -> k <> constellation_key size) ->
  compute_coverage_metrics access_data !! k = None.
Proof.
  intros H. unfold compute_coverage_metrics. cbn [foldl].
  pose proof (H 6%Z ltac:(now left)) as H6.
  pose proof (H 12%Z ltac:(now right; left)) as H12.
  pose proof (H 32%Z ltac:(now right; right; left)) as H32.
  destruct (coverage_entry access_data 6), (coverage_entry access_data 12),
           (coverage_entry access_data 32);
    repeat first [ rewrite lookup_insert_ne by congruence
                 | rewrite lookup_empty ];
    reflexivity.
Qed.

(** X24: the dictionary of coverage metrics has an entry exactly for the
    sizes among 6, 12 and 32 that have a row.  An entry counts the rows of
    its size; with one row its revisit time and its detection latency are
    infinite, with two or more both are numbers. *)
Theorem coverage_metrics_entries (access_data : list coverage_row) (k : string) :
  (is_Some (compute_coverage_metrics access_data !! k) <->
   exists size, In size [6; 12; 32]%Z /\ k = constellation_key size /\
                of_size access_data size <> []) /\
  (forall e, compute_coverage_metrics access_data !! k = Some e ->
     k = constellation_key (cm_constellation_size e) /\
     cm_num_passes e
     = Z.of_nat (length (of_size access_data (cm_constellation_size e))) /\
     (1 <= cm_num_passes e)%Z /\
     (cm_num_passes e = 1%Z <-> cm_revisit_time_hours e = PInf) /\
     (cm_revisit_time_hours e = PInf <-> cm_detection_latency_min e = PInf)).
Proof.
  destruct (key_cases k) as [(size & Hs & ->) | Hother].
  - rewrite (compute_coverage_metrics_lookup _ _ Hs).
    unfold coverage_entry, revisit_time_hours_of.
    destruct (of_size access_data size) as [| a rest] eqn:E.
    + cbn. split.
      * split; [intros [x Hx]; discriminate |].
        intros (size' & Hs' & Hk & Hne).
        assert (size' = size)
          by (apply str_of_Z_inj; unfold constellation_key in Hk;
              cbn in Hk; now inversion Hk).
        subst size'. congruence.
      * discriminate.
    + replace (length (a :: rest) =? 0)%nat with false by reflexivity.
      split.
      * split; [intros _ | intros _; eexists; reflexivity].
        exists size. rewrite E. repeat split; [exact Hs | discriminate].
      * intros e [= <-].
        cbn [cm_constellation_size cm_num_passes cm_revisit_time_hours
             cm_detection_latency_min].
        rewrite E. split; [reflexivity |]. split; [reflexivity |].
        split; [cbn [length]; lia |].
        destruct rest as [| b rest'].
        -- cbn. repeat split.
        -- replace (1 <? length (a :: b :: rest'))%nat with true by reflexivity.
           cbn [py_xround]. repeat split; try discriminate.
           cbn [length]. lia.
  - rewrite (compute_coverage_metrics_other _ _ Hother). split.
    + split; [intros [x Hx]; discriminate |].
      intros (size & Hs & Hk & _). exfalso. exact (Hother size Hs Hk).
    + discriminate.
Qed.
